(** * LuckyPot: a shallow embedding of the pot store, the reconciliation
    loop, the daily draw and entry admission of [src/lucky_pot.py]
    (the [Database] class, whose SQL coincides with [src/db.py]).

    Tables are lists of rows; an [UPDATE ... WHERE] is a [map] over the
    rows; an [INSERT] appends a row whose AUTOINCREMENT id is the
    store's next id.  Timestamps are [Z] seconds, [now] is the value of
    [CURRENT_TIMESTAMP] / [datetime('now')] at the call.  Every call to
    the external ledger, to [random.random] and to [random.choice] is an
    oracle argument; the calls made to the outside world are recorded in
    an event log. *)

From Stdlib Require Import List String ZArith Bool Lia QArith Sorting.Sorted Sorting.Permutation
  Relations.Relation_Operators.
Import ListNotations.
Open Scope Z_scope.

(** ** Rows *)

Inductive entry_status := Unconfirmed | Confirmed | InstantWin | Denied.

Definition entry_status_eqb (a b : entry_status) : bool :=
  match a, b with
  | Unconfirmed, Unconfirmed | Confirmed, Confirmed
  | InstantWin, InstantWin | Denied, Denied => true
  | _, _ => false
  end.

(** Row of [pot_entries]. *)
Record PotEntry := mkEntry {
  entry_id : nat;
  pot_id : nat;
  discord_id : string;
  guild_id : string;
  amount : Z;
  status : entry_status;
  stackcoin_request_id : string;
  created_at : Z;
  confirmed_at : option Z
}.

(** Row of [pots]. *)
Record PotRow := mkPot {
  p_pot_id : nat;
  p_guild_id : string;
  p_winner_id : option string;
  p_winning_amount : Z;
  p_created_at : Z;
  p_won_at : option Z;
  p_is_active : bool
}.

(** Row of [users]. *)
Record UserRow := mkUser {
  u_discord_id : string;
  u_guild_id : string;
  total_wins : Z;
  total_winnings : Z;
  u_created_at : Z
}.

Record DB := mkDB {
  users : list UserRow;
  pots : list PotRow;
  pot_entries : list PotEntry;
  next_pot_id : nat;
  next_entry_id : nat
}.

Definition with_users (db : DB) (l : list UserRow) : DB :=
  mkDB l (pots db) (pot_entries db) (next_pot_id db) (next_entry_id db).
Definition with_pots (db : DB) (l : list PotRow) : DB :=
  mkDB (users db) l (pot_entries db) (next_pot_id db) (next_entry_id db).
Definition with_entries (db : DB) (l : list PotEntry) : DB :=
  mkDB (users db) (pots db) l (next_pot_id db) (next_entry_id db).

(** [init_database] on a fresh file: empty tables, AUTOINCREMENT from 1. *)
Definition empty_db : DB := mkDB [] [] [] 1%nat 1%nat.

(** ** Pot store ([class Database]) *)

(** [INSERT OR IGNORE INTO users (discord_id, guild_id)]. *)
Definition get_or_create_user (db : DB) (now : Z) (d g : string) : DB :=
  if existsb (fun u => String.eqb (u_discord_id u) d && String.eqb (u_guild_id u) g)
       (users db)
  then db
  else with_users db (users db ++ [mkUser d g 0 0 now]).

(** [WHERE guild_id = ? AND is_active = TRUE AND winner_id IS NULL]. *)
Definition is_current_pot (g : string) (p : PotRow) : bool :=
  String.eqb (p_guild_id p) g && p_is_active p
  && match p_winner_id p with None => true | Some _ => false end.

(** [ORDER BY created_at DESC LIMIT 1]. *)
Definition latest_pot (acc : option PotRow) (p : PotRow) : option PotRow :=
  match acc with
  | None => Some p
  | Some b => if p_created_at b <? p_created_at p then Some p else acc
  end.

Definition get_current_pot (db : DB) (g : string) : option PotRow :=
  fold_left latest_pot (filter (is_current_pot g) (pots db)) None.

(** [INSERT INTO pots (guild_id) VALUES (?)]; returns [lastrowid]. *)
Definition create_new_pot (db : DB) (now : Z) (g : string) : DB * nat :=
  let pid := next_pot_id db in
  (mkDB (users db) (pots db ++ [mkPot pid g None 0 now None true])
        (pot_entries db) (S pid) (next_entry_id db), pid).

(** The 6-hour window of [can_user_enter_pot]. *)
Definition cooldown_window : Z := 6 * 3600.

Definition blocks_entry (now : Z) (d g : string) (pid : nat) (e : PotEntry) : bool :=
  String.eqb (discord_id e) d && String.eqb (guild_id e) g && Nat.eqb (pot_id e) pid
  && (now - cooldown_window <? created_at e)
  && (entry_status_eqb (status e) Confirmed || entry_status_eqb (status e) Unconfirmed).

(** [SELECT COUNT] of the blocking rows; [return count == 0]. *)
Definition can_user_enter_pot (db : DB) (now : Z) (d g : string) (pid : nat) : bool :=
  Nat.eqb (List.length (filter (blocks_entry now d g pid) (pot_entries db))) 0%nat.

(** [UPDATE pot_entries SET status = ? WHERE entry_id = ?]. *)
Definition set_status_where (eid : nat) (st : entry_status) (e : PotEntry) : PotEntry :=
  if Nat.eqb (entry_id e) eid
  then mkEntry (entry_id e) (pot_id e) (discord_id e) (guild_id e) (amount e) st
               (stackcoin_request_id e) (created_at e) (confirmed_at e)
  else e.

(** [UPDATE pot_entries SET status = 'confirmed', confirmed_at = CURRENT_TIMESTAMP
    WHERE entry_id = ?]. *)
Definition confirm_where (eid : nat) (now : Z) (e : PotEntry) : PotEntry :=
  if Nat.eqb (entry_id e) eid
  then mkEntry (entry_id e) (pot_id e) (discord_id e) (guild_id e) (amount e) Confirmed
               (stackcoin_request_id e) (created_at e) (Some now)
  else e.

(** [INSERT INTO pot_entries (pot_id, discord_id, guild_id, stackcoin_request_id)]
    (defaults: amount 5, status 'unconfirmed'), then, for an instant win,
    [UPDATE pot_entries SET status = 'instant_win' WHERE entry_id = ?]. *)
Definition create_pot_entry (db : DB) (now : Z) (pid : nat) (d g rid : string)
    (is_instant_win : bool) : DB * nat :=
  let eid := next_entry_id db in
  let l := pot_entries db ++ [mkEntry eid pid d g 5 Unconfirmed rid now None] in
  let l := if is_instant_win then map (set_status_where eid InstantWin) l else l in
  (mkDB (users db) (pots db) l (next_pot_id db) (S eid), eid).

Definition confirm_entry (db : DB) (now : Z) (eid : nat) : DB :=
  with_entries db (map (confirm_where eid now) (pot_entries db)).

(** [UPDATE pot_entries SET status = 'denied' WHERE entry_id = ?]. *)
Definition deny_entry (db : DB) (eid : nat) : DB :=
  with_entries db (map (set_status_where eid Denied) (pot_entries db)).

(** *** Aggregation of [get_pot_status] *)

(** One row of [SELECT discord_id, COUNT as entry_count, SUM(amount) as total_amount]. *)
Record ParticipantWithAmount := mkPWA {
  pa_discord_id : string;
  entry_count : nat;
  total_amount : Z
}.

Record PotStatus := mkPotStatus {
  ps_pot_id : nat;
  ps_total_amount : Z;
  participant_count : nat;
  participants : list ParticipantWithAmount;
  ps_created_at : Z
}.

(** [GROUP BY discord_id]: adds one row to its group (groups kept in
    order of first appearance). *)
Fixpoint group_add (d : string) (amt : Z) (acc : list ParticipantWithAmount)
    : list ParticipantWithAmount :=
  match acc with
  | [] => [mkPWA d 1 amt]
  | p :: r =>
      if String.eqb (pa_discord_id p) d
      then mkPWA d (S (entry_count p)) (total_amount p + amt) :: r
      else p :: group_add d amt r
  end.

Definition group_by_discord_id (es : list PotEntry) : list ParticipantWithAmount :=
  fold_left (fun acc e => group_add (discord_id e) (amount e) acc) es [].

(** [ORDER BY entry_count DESC, total_amount DESC]: [p] may precede [q]. *)
Definition pwa_before (p q : ParticipantWithAmount) : bool :=
  Nat.ltb (entry_count q) (entry_count p)
  || (Nat.eqb (entry_count p) (entry_count q) && (total_amount q <=? total_amount p)).

Fixpoint insert_by {A} (le : A -> A -> bool) (x : A) (l : list A) : list A :=
  match l with
  | [] => [x]
  | y :: r => if le x y then x :: l else y :: insert_by le x r
  end.

Fixpoint sort_by {A} (le : A -> A -> bool) (l : list A) : list A :=
  match l with
  | [] => []
  | x :: r => insert_by le x (sort_by le r)
  end.

(** [WHERE pot_id = ? AND status = 'confirmed']. *)
Definition confirmed_of_pot (pid : nat) (e : PotEntry) : bool :=
  Nat.eqb (pot_id e) pid && entry_status_eqb (status e) Confirmed.

Definition sum_amounts (es : list PotEntry) : Z :=
  fold_right (fun e s => amount e + s) 0 es.

(** [get_pot_status]; [None] is the [{"exists": False}] result. *)
Definition get_pot_status (db : DB) (g : string) : option PotStatus :=
  match get_current_pot db g with
  | None => None
  | Some pot =>
      let rows := filter (confirmed_of_pot (p_pot_id pot)) (pot_entries db) in
      let ps := sort_by pwa_before (group_by_discord_id rows) in
      let total_pot := sum_amounts rows in
      Some (mkPotStatus (p_pot_id pot) total_pot (List.length ps) ps (p_created_at pot))
  end.

(** *** Reconciliation queries *)

(** [JOIN pots p ON pe.pot_id = p.pot_id]: each entry paired with
    [p.guild_id as pot_guild_id], once per matching pot row. *)
Definition join_pots (ps : list PotRow) (es : list PotEntry) : list (PotEntry * string) :=
  flat_map (fun e => map (fun p => (e, p_guild_id p))
                         (filter (fun p => Nat.eqb (p_pot_id p) (pot_id e)) ps)) es.

(** [ORDER BY pe.created_at ASC]. *)
Definition created_before (x y : PotEntry * string) : bool :=
  created_at (fst x) <=? created_at (fst y).

(** [WHERE pe.status = 'unconfirmed' AND pe.created_at > datetime('now', '-1 hour')]. *)
Definition get_unconfirmed_entries (db : DB) (now : Z) : list (PotEntry * string) :=
  sort_by created_before
    (join_pots (pots db)
       (filter (fun e => entry_status_eqb (status e) Unconfirmed
                         && (now - 3600 <? created_at e)) (pot_entries db))).

(** [WHERE pe.status = 'unconfirmed' AND pe.created_at <= datetime('now', '-1 hour')]. *)
Definition get_expired_entries (db : DB) (now : Z) : list (PotEntry * string) :=
  sort_by created_before
    (join_pots (pots db)
       (filter (fun e => entry_status_eqb (status e) Unconfirmed
                         && (created_at e <=? now - 3600)) (pot_entries db))).

(** One row of [SELECT discord_id, COUNT as entries ... GROUP BY discord_id]. *)
Record Participant := mkParticipant {
  pt_discord_id : string;
  entries : nat
}.

Definition get_active_pot_participants (db : DB) (g : string) : list Participant :=
  match get_current_pot db g with
  | None => []
  | Some pot =>
      map (fun p => mkParticipant (pa_discord_id p) (entry_count p))
        (group_by_discord_id (filter (confirmed_of_pot (p_pot_id pot)) (pot_entries db)))
  end.

(** [win_pot]: two UPDATEs in one transaction.  The first is scoped by
    [guild_id = ? AND is_active = TRUE AND winner_id IS NULL]; the second
    by [discord_id = ? AND guild_id = ?] only. *)
Definition win_pot (db : DB) (now : Z) (g w : string) (amt : Z) : DB :=
  let ps := map (fun p => if is_current_pot g p
                          then mkPot (p_pot_id p) (p_guild_id p) (Some w) amt
                                 (p_created_at p) (Some now) false
                          else p) (pots db) in
  let us := map (fun u => if String.eqb (u_discord_id u) w && String.eqb (u_guild_id u) g
                          then mkUser (u_discord_id u) (u_guild_id u) (total_wins u + 1)
                                 (total_winnings u + amt) (u_created_at u)
                          else u) (users db) in
  mkDB us ps (pot_entries db) (next_pot_id db) (next_entry_id db).

(** [SELECT DISTINCT guild_id FROM pots WHERE is_active = TRUE]. *)
Fixpoint distinct_strings (seen : list string) (l : list string) : list string :=
  match l with
  | [] => []
  | x :: r => if existsb (String.eqb x) seen then distinct_strings seen r
              else x :: distinct_strings (x :: seen) r
  end.

Definition get_all_active_guilds (db : DB) : list string :=
  distinct_strings [] (map p_guild_id (filter p_is_active (pots db))).

(** ** Effects on the outside world *)

Inductive announcement :=
  | InstantWinAnn (winner : string) (amt : Z)
  | DailyWinnerAnn (winner : string) (amt : Z)
  | PotContinuesAnn (amt : Z)
  | ForceEndAnn (winner : string) (amt : Z).

(** Replies of the slash commands. *)
Inductive reply :=
  | ReplyVerifyFailed | ReplyNotRegistered | ReplyCooldown | ReplyRequestFailed
  | ReplyInstantWin (pot_total : Z) | ReplyEntered
  | ReplyNoActivePot | ReplyNoParticipants | ReplyNoConfirmed
  | ReplyPotEnded (winner : string) (amt : Z) | ReplySendFailed (winner : string)
  | ReplyError.

Inductive event :=
  | SendFunds (winner : string) (amt : Z)          (* send_winnings_to_user *)
  | Announce (g : string) (a : announcement)       (* announce_to_guild *)
  | CreateRequest (user_id : Z) (amt : Z)           (* stackcoin_create_request *)
  | DenyRequest (rid : string)                     (* stackcoin_deny_request *)
  | Respond (r : reply).                           (* ctx.respond *)

(** The snippet the three payout paths share:
    [if await send_winnings_to_user(w, amt): db.win_pot(g, w, amt); announce].
    [send w amt] is the boolean [send_winnings_to_user] returns. *)
Definition send_then_win_pot (db : DB) (now : Z) (send : string -> Z -> bool)
    (g w : string) (amt : Z) (ann : announcement) : DB * list event * bool :=
  if send w amt
  then (win_pot db now g w amt, [SendFunds w amt; Announce g ann], true)
  else (db, [SendFunds w amt], false).

(** ** Reconciliation loop: [process_stackcoin_requests] *)

Section Reconcile.
(** [resp e]: the ids of the accepted requests returned by the
    [stackcoin_requests] call made while processing entry [e]; [None]
    when the response is not a [RequestsResponse] or has no requests,
    or when the call raises (the per-entry [except] then logs). *)
Variable resp : PotEntry -> option (list string).
Variable send : string -> Z -> bool.
(** [deny_ok e]: [stackcoin_deny_request] for [e] returns (no exception). *)
Variable deny_ok : PotEntry -> bool.
Variable now : Z.

(** One iteration of [for entry in unconfirmed_entries]. *)
Definition confirm_step (st : DB * list event) (x : PotEntry * string) : DB * list event :=
  let '(db, log) := st in
  let '(entry, pot_guild_id) := x in
  match resp entry with
  | None => (db, log)
  | Some reqs =>
      if existsb (fun r => String.eqb r (stackcoin_request_id entry)) reqs then
        let db1 := confirm_entry db now (entry_id entry) in
        if entry_status_eqb (status entry) InstantWin then
          match get_pot_status db1 pot_guild_id with
          | None => (db1, log)
          | Some ps =>
              let winning_amount := ps_total_amount ps in
              let '(db2, ev, _) :=
                send_then_win_pot db1 now send pot_guild_id (discord_id entry)
                  winning_amount (InstantWinAnn (discord_id entry) winning_amount) in
              (db2, log ++ ev)
          end
        else (db1, log)
      else (db, log)
  end.

(** One iteration of [for entry in expired_entries]. *)
Definition expire_step (st : DB * list event) (x : PotEntry * string) : DB * list event :=
  let '(db, log) := st in
  let entry := fst x in
  if deny_ok entry
  then (deny_entry db (entry_id entry), log ++ [DenyRequest (stackcoin_request_id entry)])
  else (db, log).

Definition process_stackcoin_requests (db : DB) : DB * list event :=
  let unconfirmed_entries := get_unconfirmed_entries db now in
  let '(db1, log1) := fold_left confirm_step unconfirmed_entries (db, []) in
  let expired_entries := get_expired_entries db1 now in
  fold_left expire_step expired_entries (db1, log1).
End Reconcile.

(** The ledger calls a tick makes itself, in the order it makes them. *)
Inductive tick_call :=
  | CallRequests (eid : nat)              (* stackcoin_requests, while processing entry [eid] *)
  | CallDeny (rid : string) (ok : bool).  (* stackcoin_deny_request; [ok]: it returned *)

(** [process_stackcoin_requests] with the clock read where the source
    reads it: [t0] is the [datetime('now')] of [get_unconfirmed_entries],
    [tconf e] the [CURRENT_TIMESTAMP] of [confirm_entry] for entry [e]
    (after the awaited [stackcoin_requests] call for [e]), and [t1] the
    [datetime('now')] of [get_expired_entries], read after all those
    awaits.  Besides the store and the event log it returns the calls of
    the tick: one [stackcoin_requests] per unconfirmed entry, then one
    deny attempt per expired entry, whether it returns or raises.  (A
    payout of the instant-win branch is in the event log, as
    [SendFunds].) *)
Definition process_stackcoin_requests_timed (resp : PotEntry -> option (list string))
    (send : string -> Z -> bool) (deny_ok : PotEntry -> bool)
    (t0 : Z) (tconf : PotEntry -> Z) (t1 : Z) (db : DB) : DB * list event * list tick_call :=
  let unconfirmed_entries := get_unconfirmed_entries db t0 in
  let '(db1, log1) :=
    fold_left (fun st x => confirm_step resp send (tconf (fst x)) st x)
      unconfirmed_entries (db, []) in
  let expired_entries := get_expired_entries db1 t1 in
  let '(db2, log2) := fold_left (expire_step deny_ok) expired_entries (db1, log1) in
  (db2, log2,
   map (fun x => CallRequests (entry_id (fst x))) unconfirmed_entries ++
   map (fun x => CallDeny (stackcoin_request_id (fst x)) (deny_ok (fst x))) expired_entries).

(** ** Draw engine *)

(** [weighted_participants.extend([p["discord_id"]] * p["entries"])]. *)
Definition weighted_participants (ps : list Participant) : list string :=
  flat_map (fun p => repeat (pt_discord_id p) (entries p)) ps.

(** [random.choice(seq)] is [seq[randbelow(len(seq))]]; [r] is the value
    the generator yields, reduced below the length.  [None] is the
    [IndexError] raised on an empty sequence. *)
Definition random_choice (l : list string) (r : nat) : option string :=
  match l with
  | [] => None
  | _ => nth_error l (Nat.modulo r (List.length l))
  end.

(** [random.random() < p] for the value [x] the generator yields. *)
Definition random_below (x p : Q) : bool := negb (Qle_bool p x).

Section DailyDraw.
(** [coin g], [pick g]: the values of [random.random()] and of the
    generator behind [random.choice] while guild [g] is processed. *)
Variable coin : string -> Q.
Variable pick : string -> nat.
Variable send : string -> Z -> bool.
Variable now : Z.

(** The body of [for guild_id in all_guilds]; [None] when it raises. *)
Definition draw_guild (db : DB) (g : string) : option (DB * list event) :=
  match get_pot_status db g with
  | None => Some (db, [])
  | Some pot_status =>
      if Nat.eqb (participant_count pot_status) 0 then Some (db, [])
      else if random_below (coin g) (4 # 10) then
        let ps := get_active_pot_participants db g in
        match ps with
        | _ :: _ =>
            match random_choice (weighted_participants ps) (pick g) with
            | None => None
            | Some winner_id =>
                let winning_amount := ps_total_amount pot_status in
                let '(db', ev, _) :=
                  send_then_win_pot db now send g winner_id winning_amount
                    (DailyWinnerAnn winner_id winning_amount) in
                Some (db', ev)
            end
        | [] => Some (db, [Announce g (PotContinuesAnn (ps_total_amount pot_status))])
        end
      else Some (db, [])
  end.

(** An exception leaves the [try] and skips the remaining guilds. *)
Fixpoint draw_loop (gs : list string) (db : DB) (log : list event) : DB * list event :=
  match gs with
  | [] => (db, log)
  | g :: gs' =>
      match draw_guild db g with
      | None => (db, log)
      | Some (db', ev) => draw_loop gs' db' (log ++ ev)
      end
  end.

Definition daily_pot_draw (db : DB) : DB * list event :=
  draw_loop (get_all_active_guilds db) db [].
End DailyDraw.

(** [ForceEndPot.invoke] (debug mode); [pick] as in the daily draw. *)
Definition force_end_pot (db : DB) (now : Z) (pick : nat) (send : string -> Z -> bool)
    (g : string) : DB * list event :=
  match get_pot_status db g with
  | None => (db, [Respond ReplyNoActivePot])
  | Some pot_status =>
      if Nat.eqb (participant_count pot_status) 0 then (db, [Respond ReplyNoParticipants])
      else
        let ps := get_active_pot_participants db g in
        match ps with
        | _ :: _ =>
            match random_choice (weighted_participants ps) pick with
            | None => (db, [Respond ReplyError])
            | Some winner_id =>
                let winning_amount := ps_total_amount pot_status in
                let '(db', ev, ok) :=
                  send_then_win_pot db now send g winner_id winning_amount
                    (ForceEndAnn winner_id winning_amount) in
                if ok then (db', ev ++ [Respond (ReplyPotEnded winner_id winning_amount)])
                else (db', ev ++ [Respond (ReplySendFailed winner_id)])
            end
        | [] => (db, [Respond ReplyNoConfirmed])
        end
  end.

(** ** Entry admission: [EnterPot.invoke] *)

(** A [User] of the StackCoin API; [su_id = None] is [Unset]. *)
Record StkUser := mkStkUser { su_id : option Z; su_username : string }.

(** Result of [stackcoin_users]: not a [UsersResponse] (or [users] unset),
    or the list of users. *)
Inductive users_response := UsersFailed | UsersOk (us : list StkUser).

(** [users]: the [stackcoin_users] result; [create_req]: the request id of
    a [CreateRequestResponse], [None] when the call returns anything else
    or raises; [coin]: the value of [random.random()].  The two [None]
    cases leave the store as [db2] and differ only in the reply text: the
    source answers a raise with "Error creating pot entry" rather than
    "Failed to create payment request", and both are [ReplyRequestFailed]
    here. *)
Definition enter_pot (db : DB) (now : Z) (g d : string) (users_resp : users_response)
    (create_req : option string) (coin : Q) : DB * list event :=
  match users_resp with
  | UsersFailed => (db, [Respond ReplyVerifyFailed])
  | UsersOk [] => (db, [Respond ReplyNotRegistered])
  | UsersOk (user :: _) =>
      let db1 := get_or_create_user db now d g in
      let '(db2, pot_id) :=
        match get_current_pot db1 g with
        | None => create_new_pot db1 now g
        | Some current_pot => (db1, p_pot_id current_pot)
        end in
      if negb (can_user_enter_pot db2 now d g pot_id) then (db2, [Respond ReplyCooldown])
      else
        match su_id user with
        | None => (db2, [Respond ReplyRequestFailed])
        | Some user_id =>
            let call := CreateRequest user_id 5 in
            match create_req with
            | None => (db2, [call; Respond ReplyRequestFailed])
            | Some request_id =>
                let instant_win := random_below coin (5 # 100) in
                let '(db3, _) := create_pot_entry db2 now pot_id d g request_id instant_win in
                if instant_win then
                  let pot_total :=
                    match get_pot_status db3 g with
                    | Some st => ps_total_amount st
                    | None => 0
                    end + 5 in
                  (db3, [call; Respond (ReplyInstantWin pot_total)])
                else (db3, [call; Respond ReplyEntered])
            end
        end
  end.

(** The state of the store after the user row and the pot are ensured,
    and the pot id then used (steps before the cooldown check). *)
Definition admission_pot (db : DB) (now : Z) (g d : string) : DB * nat :=
  let db1 := get_or_create_user db now d g in
  match get_current_pot db1 g with
  | None => create_new_pot db1 now g
  | Some current_pot => (db1, p_pot_id current_pot)
  end.

(** ** Payout primitive: [send_winnings_to_user] *)

(** Result of [stackcoin_send_stk]: the call raises, returns something
    other than a [SendStkResponse], or a [SendStkResponse] with its
    [success] flag. *)
Inductive send_stk_response := SendRaised | SendOther | SendResponse (success : bool).

(** The ledger calls made by [send_winnings_to_user]. *)
Inductive stk_call :=
  | CallUsers (d : string)                             (* stackcoin_users *)
  | CallSendStk (user_id : Z) (amt : Z) (label : string). (* stackcoin_send_stk *)

(** [lookup]: the result of [stackcoin_users] for the winner ([UsersFailed]
    is also what a raised exception there amounts to: [False] is returned
    before any further call); [send_stk uid amt]: the result of
    [stackcoin_send_stk].  Returns the boolean result and the calls made. *)
Definition send_winnings_to_user (lookup : users_response)
    (send_stk : Z -> Z -> send_stk_response) (winner_discord_id : string) (amount : Z)
    : bool * list stk_call :=
  let c0 := [CallUsers winner_discord_id] in
  match lookup with
  | UsersFailed => (false, c0)
  | UsersOk [] => (false, c0)
  | UsersOk (winner_user :: _) =>
      match su_id winner_user with
      | None => (false, c0)
      | Some winner_user_id =>
          let c := c0 ++ [CallSendStk winner_user_id amount "Lucky Pot Winnings"%string] in
          match send_stk winner_user_id amount with
          | SendResponse true => (true, c)
          | _ => (false, c)
          end
      end
  end.

(** ** Status command: [PotStatus.invoke] *)

(** The fields of the embed: "Total Pot", "Participants", "Top Participants"
    (present only when [status["participants"]] is non-empty; one
    [(discord_id, entry_count)] per line), "Next Daily Draw" (a timestamp)
    and the "Pot ID" footer. *)
Record StatusEmbed := mkStatusEmbed {
  em_total : Z;
  em_participants : nat;
  em_top : option (list (string * nat));
  em_next_draw : Z;
  em_pot_id : nat
}.

Inductive pot_status_reply := StatusNoActivePot | StatusEmbedReply (e : StatusEmbed).

Definition day : Z := 86400.

(** [int((datetime.now(utc).replace(hour=0, minute=0, second=0,
    microsecond=0) + timedelta(days=1)).timestamp())] for the POSIX time
    [now] in whole seconds. *)
Definition next_draw (now : Z) : Z := now - now mod day + day.

Definition pot_status_invoke (db : DB) (now : Z) (g : string) : pot_status_reply :=
  match get_pot_status db g with
  | None => StatusNoActivePot
  | Some status =>
      let top :=
        match participants status with
        | [] => None
        | ps => Some (map (fun p => (pa_discord_id p, entry_count p)) (firstn 10 ps))
        end in
      StatusEmbedReply (mkStatusEmbed (ps_total_amount status) (participant_count status)
                          top (next_draw now) (ps_pot_id status))
  end.

(** ** Program steps

    The operations of the program that touch the store, with every
    oracle value free; a reconciliation tick reads the clock three
    times, each reading free. *)
Inductive prog_step : DB -> DB -> Prop :=
  | step_enter db now g d ur cr coin :
      prog_step db (fst (enter_pot db now g d ur cr coin))
  | step_reconcile db resp send deny_ok t0 tconf t1 :
      prog_step db (fst (fst (process_stackcoin_requests_timed resp send deny_ok t0 tconf t1 db)))
  | step_daily_draw db coin pick send now :
      prog_step db (fst (daily_pot_draw coin pick send now db))
  | step_force_end db now pick send g :
      prog_step db (fst (force_end_pot db now pick send g)).

(** ** Vocabulary of the properties *)

(** The [UPDATE users SET total_wins = total_wins + 1, ...] of [win_pot]. *)
Definition credit_winner (g w : string) (amt : Z) (u : UserRow) : UserRow :=
  if String.eqb (u_discord_id u) w && String.eqb (u_guild_id u) g
  then mkUser (u_discord_id u) (u_guild_id u) (total_wins u + 1)
         (total_winnings u + amt) (u_created_at u)
  else u.

Definition by_discord_id (d : string) (e : PotEntry) : bool := String.eqb (discord_id e) d.

(** The relation between the groups and the rows folded so far. *)
Definition groups_of (acc : list ParticipantWithAmount) (rows : list PotEntry) : Prop :=
  NoDup (map pa_discord_id acc) /\
  (forall p, In p acc ->
     entry_count p = List.length (filter (by_discord_id (pa_discord_id p)) rows) /\
     total_amount p = sum_amounts (filter (by_discord_id (pa_discord_id p)) rows)) /\
  (forall e, In e rows -> exists p, In p acc /\ pa_discord_id p = discord_id e).

(** [a] to [b] is allowed: no change, or leaving [unconfirmed]. *)
Definition status_forward (a b : entry_status) : Prop :=
  a = b \/ (a = Unconfirmed /\ b <> Unconfirmed).

Definition entry_forward (e e' : PotEntry) : Prop :=
  entry_id e = entry_id e' /\ status_forward (status e) (status e').

(** The rows of [l] keep their place in [l'], each moved forward, and
    [l'] may have further rows after them. *)
Definition entries_forward (l l' : list PotEntry) : Prop :=
  exists p ext, l' = p ++ ext /\ Forall2 entry_forward l p.

(** AUTOINCREMENT: entry ids are distinct and below the next id. *)
Definition wf_db (db : DB) : Prop :=
  NoDup (map entry_id (pot_entries db)) /\
  Forall (fun e => (entry_id e < next_entry_id db)%nat) (pot_entries db).

(** The rows of [pot_entries] with a given [entry_id]. *)
Definition rows_with_id (i : nat) (es : list PotEntry) : list PotEntry :=
  filter (fun r => Nat.eqb (entry_id r) i) es.

(** The request of [e] is among the accepted requests the tick fetched
    while processing [e]. *)
Definition request_accepted (resp : PotEntry -> option (list string)) (e : PotEntry) : bool :=
  match resp e with
  | Some reqs => existsb (fun r => String.eqb r (stackcoin_request_id e)) reqs
  | None => false
  end.

(** Number of pots of guild [g] that are active and unwon. *)
Definition current_pot_count (db : DB) (g : string) : nat :=
  List.length (filter (is_current_pot g) (pots db)).

(** The primary key [(discord_id, guild_id)] of each user row. *)
Definition user_keys (db : DB) : list (string * string) :=
  map (fun u => (u_discord_id u, u_guild_id u)) (users db).

(** ** Concrete stores used by the examples below *)

Local Open Scope string_scope.

(** A fresh store after the first [create_new_pot] of guild "g". *)
Definition ex_pot_db : DB := fst (create_new_pot empty_db 0 "g").

(** User "A" entered that pot at time 100 and rolled an instant win;
    the debit request has id "7". *)
Definition ex_instant_db : DB := fst (create_pot_entry ex_pot_db 100 1 "A" "g" "7" true).

(** The pot of guild "g" holding [confirmed(5, A); confirmed(5, A); instant_win(5, B)]. *)
Definition ex_status_db : DB :=
  mkDB [] (pots ex_pot_db)
    [mkEntry 1 1 "A" "g" 5 Confirmed "1" 10 (Some 20);
     mkEntry 2 1 "A" "g" 5 Confirmed "2" 11 (Some 21);
     mkEntry 3 1 "B" "g" 5 InstantWin "3" 12 None]
    2 4.

(** User "A" of guild "g" exists, and the guild has no pot at all. *)
Definition ex_user_db : DB := mkDB [mkUser "A" "g" 0 0 0] [] [] 1 1.

(** A run from the empty store.  "A" enters guild "g" at time 0 with
    request "7", which creates pot 1; a tick at time 100 finds "7"
    accepted and confirms the entry; the forced end of guild "g" at time
    200 pays "A" and closes pot 1; "A" enters again at time 300 with
    request "8", which finds the user row of "A" and creates pot 2. *)
Definition ex_run1 : DB :=
  fst (enter_pot empty_db 0 "g" "A" (UsersOk [mkStkUser (Some 1%Z) "a"]) (Some "7") (1 # 2)).

Definition ex_run2 : DB :=
  fst (fst (process_stackcoin_requests_timed (fun _ => Some ["7"]) (fun _ _ => true)
              (fun _ => true) 100 (fun _ => 100) 100 ex_run1)).

Definition ex_run3 : DB := fst (force_end_pot ex_run2 200 0 (fun _ _ => true) "g").

Definition ex_run4 : DB :=
  fst (enter_pot ex_run3 300 "g" "A" (UsersOk [mkStkUser (Some 1%Z) "a"]) (Some "8") (1 # 2)).

(** User "A" entered pot 1 of guild "g" at time 100 (no instant win),
    request "7" still pending. *)
Definition ex_pending_db : DB := fst (create_pot_entry ex_pot_db 100 1 "A" "g" "7" false).

Local Close Scope string_scope.

(** * Properties *)

(** ** Generic facts *)

Lemma entry_status_eqb_eq a b : entry_status_eqb a b = true <-> a = b.
Proof. destruct a, b; simpl; split; congruence. Qed.


Lemma filter_all_false {A} (f : A -> bool) (l : list A) :
  (forall x, In x l -> f x = false) -> filter f l = [].
Proof.
  induction l as [|a l IH]; intros H; simpl; [reflexivity|].
  rewrite (H a (or_introl eq_refl)). apply IH. intros x Hx. apply H. now right.
Qed.

Lemma blocks_entry_true now d g pid e :
  blocks_entry now d g pid e = true <->
  discord_id e = d /\ guild_id e = g /\ pot_id e = pid
  /\ now - cooldown_window < created_at e
  /\ (status e = Confirmed \/ status e = Unconfirmed).
Proof.
  unfold blocks_entry.
  rewrite !andb_true_iff, orb_true_iff, !entry_status_eqb_eq, String.eqb_eq,
    String.eqb_eq, Nat.eqb_eq, Z.ltb_lt.
  tauto.
Qed.

Lemma blocks_entry_status now d g pid e :
  status e = InstantWin \/ status e = Denied -> blocks_entry now d g pid e = false.
Proof.
  intros Hs. destruct (blocks_entry now d g pid e) eqn:E; [|reflexivity].
  apply blocks_entry_true in E. destruct Hs, E as (_ & _ & _ & _ & [H'|H']); congruence.
Qed.

(** ** Entry statuses seen by the reconciliation queries *)

Lemma join_pots_In ps es x :
  In x (join_pots ps es) -> In (fst x) es.
Proof.
  unfold join_pots. intros H. apply in_flat_map in H as (e & He & Hx).
  apply in_map_iff in Hx as (p & <- & _). exact He.
Qed.

Lemma insert_by_In {A} (le : A -> A -> bool) x l y :
  In y (insert_by le x l) <-> x = y \/ In y l.
Proof.
  induction l as [|a l IH]; simpl; [tauto|].
  destruct (le x a); simpl; [tauto|]. rewrite IH. tauto.
Qed.

Lemma sort_by_In {A} (le : A -> A -> bool) l y :
  In y (sort_by le l) <-> In y l.
Proof.
  induction l as [|a l IH]; simpl; [tauto|].
  rewrite insert_by_In, IH. tauto.
Qed.

Lemma get_unconfirmed_entries_In db now x :
  In x (get_unconfirmed_entries db now) ->
  In (fst x) (pot_entries db) /\ status (fst x) = Unconfirmed.
Proof.
  unfold get_unconfirmed_entries. rewrite sort_by_In. intros H.
  apply join_pots_In, filter_In in H as [H1 H2].
  apply andb_true_iff in H2 as [H2 _]. apply entry_status_eqb_eq in H2. auto.
Qed.

Lemma get_expired_entries_In db now x :
  In x (get_expired_entries db now) ->
  In (fst x) (pot_entries db) /\ status (fst x) = Unconfirmed.
Proof.
  unfold get_expired_entries. rewrite sort_by_In. intros H.
  apply join_pots_In, filter_In in H as [H1 H2].
  apply andb_true_iff in H2 as [H2 _]. apply entry_status_eqb_eq in H2. auto.
Qed.

Lemma filter_skip {A} (f : A -> bool) l1 x l2 :
  f x = false -> filter f (l1 ++ x :: l2) = filter f (l1 ++ l2).
Proof. intros H. rewrite !filter_app. simpl. now rewrite H. Qed.

(** ** The cooldown gate *)

(** C5: [can_user_enter_pot] is false exactly when an entry of that user,
    guild and pot, with status confirmed or unconfirmed, was created less
    than 6 hours before [now]; a denied entry never changes the answer;
    a pot none of whose entries exist yet (a new pot) admits everyone. *)
Theorem can_user_enter_pot_cooldown (db : DB) (now : Z) (d g : string) (pid : nat) :
  (can_user_enter_pot db now d g pid = false <->
   exists e, In e (pot_entries db) /\ discord_id e = d /\ guild_id e = g
     /\ pot_id e = pid /\ now - cooldown_window < created_at e
     /\ (status e = Confirmed \/ status e = Unconfirmed)) /\
  (forall l1 l2 i p d' g' a r c cf,
     can_user_enter_pot (with_entries db (l1 ++ mkEntry i p d' g' a Denied r c cf :: l2))
       now d g pid
     = can_user_enter_pot (with_entries db (l1 ++ l2)) now d g pid) /\
  ((forall e, In e (pot_entries db) -> pot_id e <> pid) ->
   can_user_enter_pot db now d g pid = true).
Proof.
  unfold can_user_enter_pot. split; [|split].
  - split.
    + intros H. destruct (filter (blocks_entry now d g pid) (pot_entries db)) as [|e l] eqn:F;
        [discriminate|].
      assert (He : In e (filter (blocks_entry now d g pid) (pot_entries db)))
        by (rewrite F; now left).
      apply filter_In in He as [He1 He2]. apply blocks_entry_true in He2.
      exists e. tauto.
    + intros (e & He & Hrest).
      assert (Hf : In e (filter (blocks_entry now d g pid) (pot_entries db)))
        by (apply filter_In; split; [exact He|apply blocks_entry_true; tauto]).
      destruct (filter (blocks_entry now d g pid) (pot_entries db)); [contradiction|].
      reflexivity.
  - intros. simpl. rewrite filter_skip; [reflexivity|].
    apply blocks_entry_status. now right.
  - intros H. rewrite filter_all_false; [reflexivity|].
    intros e He. destruct (blocks_entry now d g pid e) eqn:B; [|reflexivity].
    apply blocks_entry_true in B. exfalso. apply (H e He). tauto.
Qed.

(** C10: a freshly created instant-win entry does not start the cooldown:
    a user who could enter a pot can still enter it right after an
    instant-win entry for it was stored. *)
Theorem instant_win_entry_no_cooldown (db : DB) (now t : Z) (pid : nat) (d g rid : string) :
  can_user_enter_pot db now d g pid = true ->
  can_user_enter_pot (fst (create_pot_entry db t pid d g rid true)) now d g pid = true.
Proof.
  unfold can_user_enter_pot, create_pot_entry. simpl. intros H.
  apply Nat.eqb_eq, length_zero_iff_nil in H.
  rewrite filter_all_false; [reflexivity|].
  intros x Hx. apply in_map_iff in Hx as (y & <- & Hy). unfold set_status_where.
  destruct (Nat.eqb (entry_id y) (next_entry_id db)) eqn:E.
  - apply blocks_entry_status. now left.
  - apply in_app_or in Hy as [Hy|[<-|[]]].
    + destruct (blocks_entry now d g pid y) eqn:B; [|reflexivity].
      assert (Hin : In y (filter (blocks_entry now d g pid) (pot_entries db)))
        by (apply filter_In; auto).
      rewrite H in Hin. contradiction.
    + simpl in E. rewrite Nat.eqb_refl in E. discriminate.
Qed.

(** ** Instant wins in the confirmation pass *)

(** C1 (the instant-win branch of the confirmation pass is never taken):
    every entry the pass iterates over has status unconfirmed, because
    [get_unconfirmed_entries] selects [status = 'unconfirmed'] while
    [create_pot_entry] stores an instant win as ['instant_win'].  On the
    store where "A" rolled an instant win with request "7", a tick that
    sees "7" accepted and whose sends would all succeed changes nothing
    and emits nothing: the entry is neither confirmed nor paid, and the
    pot stays open. *)
Theorem instant_win_entry_skipped_by_reconciliation :
  (forall db now x, In x (get_unconfirmed_entries db now) -> status (fst x) <> InstantWin) /\
  process_stackcoin_requests (fun _ => Some ["7"%string]) (fun _ _ => true) (fun _ => true)
    110 ex_instant_db = (ex_instant_db, []).
Proof.
  split.
  - intros db now x Hx. apply get_unconfirmed_entries_In in Hx as [_ ->]. discriminate.
  - vm_compute. reflexivity.
Qed.

(** ** The scheduled draw *)

(** C9 (a lost coin flip is silent): when [random.random() < 0.4] fails
    for a guild, its iteration of [daily_pot_draw] changes nothing and
    emits no announcement at all.  On guild "g", whose current pot has
    one participant, a draw whose coin yields 0.5 returns with an empty
    event list. *)
Theorem daily_draw_no_draw_is_silent :
  (forall coin pick send now db g,
     random_below (coin g) (4 # 10) = false ->
     draw_guild coin pick send now db g = Some (db, [])) /\
  option_map participant_count (get_pot_status ex_status_db "g"%string) = Some 1%nat /\
  daily_pot_draw (fun _ => 1 # 2) (fun _ => 0%nat) (fun _ _ => true) 200 ex_status_db
  = (ex_status_db, []).
Proof.
  split; [|split].
  - intros coin pick send now db g Hc. unfold draw_guild.
    destruct (get_pot_status db g) as [st|]; [|reflexivity].
    destruct (Nat.eqb (participant_count st) 0); [reflexivity|].
    now rewrite Hc.
  - vm_compute. reflexivity.
  - vm_compute. reflexivity.
Qed.

(** ** [win_pot] without a current pot *)

(** C3 (counterexample): guild "g" has no pot, yet [win_pot] for "A"
    changes the [users] table. *)
Lemma win_pot_no_pot_changes_users :
  get_current_pot ex_user_db "g"%string = None /\
  users (win_pot ex_user_db 50 "g"%string "A"%string 10) <> users ex_user_db.
Proof. split; [reflexivity|]. vm_compute. congruence. Qed.

(** C3 (amended): when no pot of the guild is active and unwon, [win_pot]
    leaves [pots] and [pot_entries] as they were, but still adds one win
    and [amt] winnings to the winner's user row of that guild (every other
    user row is unchanged). *)
Theorem win_pot_without_current_pot (db : DB) (now : Z) (g w : string) (amt : Z) :
  (forall p, In p (pots db) -> is_current_pot g p = false) ->
  pots (win_pot db now g w amt) = pots db /\
  pot_entries (win_pot db now g w amt) = pot_entries db /\
  users (win_pot db now g w amt) = map (credit_winner g w amt) (users db).
Proof.
  intros H. unfold win_pot. simpl. split; [|split]; [|reflexivity|reflexivity].
  rewrite <- (map_id (pots db)) at 2. apply map_ext_in.
  intros p Hp. now rewrite (H p Hp).
Qed.

(** ** Aggregation of [get_pot_status] *)

Lemma sum_amounts_app l1 l2 : sum_amounts (l1 ++ l2) = sum_amounts l1 + sum_amounts l2.
Proof. induction l1 as [|e l IH]; simpl; [reflexivity|]. rewrite IH. lia. Qed.

Lemma group_add_ids d amt acc :
  map pa_discord_id (group_add d amt acc) =
  if existsb (fun p => String.eqb (pa_discord_id p) d) acc
  then map pa_discord_id acc else map pa_discord_id acc ++ [d].
Proof.
  induction acc as [|p r IH]; simpl; [reflexivity|].
  destruct (String.eqb (pa_discord_id p) d) eqn:E; simpl.
  - apply String.eqb_eq in E. now rewrite E.
  - rewrite IH. now destruct (existsb _ r).
Qed.

Lemma group_add_In d amt acc q :
  NoDup (map pa_discord_id acc) ->
  In q (group_add d amt acc) ->
  (In q acc /\ pa_discord_id q <> d) \/
  (pa_discord_id q = d /\
   ((exists p, In p acc /\ pa_discord_id p = d /\ entry_count q = S (entry_count p)
               /\ total_amount q = total_amount p + amt) \/
    ((forall p, In p acc -> pa_discord_id p <> d) /\ entry_count q = 1%nat
     /\ total_amount q = amt))).
Proof.
  induction acc as [|p r IH]; simpl; intros Hnd Hq.
  - destruct Hq as [<-|[]]. right. simpl. split; [reflexivity|]. right. tauto.
  - inversion Hnd as [|? ? Hnin Hnd']; subst.
    destruct (String.eqb (pa_discord_id p) d) eqn:E.
    + apply String.eqb_eq in E. destruct Hq as [<-|Hq].
      * right. split; [reflexivity|]. left. exists p. simpl. tauto.
      * left. split; [now right|]. intros Hd. apply Hnin. rewrite E, <- Hd.
        now apply in_map.
    + apply String.eqb_neq in E. destruct Hq as [<-|Hq].
      * left. tauto.
      * destruct (IH Hnd' Hq) as [H|[H1 [(p' & H2 & H3)|(H2 & H3)]]].
        -- left. tauto.
        -- right. split; [assumption|]. left. exists p'. tauto.
        -- right. split; [assumption|]. right. split; [|tauto].
           intros p0 [<-|Hp0]; [assumption|]. now apply H2.
Qed.

Lemma groups_of_add acc rows e :
  groups_of acc rows ->
  groups_of (group_add (discord_id e) (amount e) acc) (rows ++ [e]).
Proof.
  intros (Hnd & Hcnt & Hcov). split; [|split].
  - rewrite group_add_ids. destruct (existsb _ acc) eqn:Ex; [assumption|].
    apply NoDup_app; [assumption|constructor; [intros []|constructor]|].
    intros x Hx [<-|[]]. apply in_map_iff in Hx as (p & Hp & Hpin).
    assert (Hf : existsb (fun p => String.eqb (pa_discord_id p) (discord_id e)) acc = true)
      by (apply existsb_exists; exists p; split; [assumption|]; now apply String.eqb_eq).
    congruence.
  - intros q Hq. rewrite filter_app, length_app, sum_amounts_app. simpl.
    unfold by_discord_id at 2 4.
    destruct (group_add_In _ _ _ _ Hnd Hq) as [(Hin & Hne)|(Hid & [(p & Hp & Hpid & Hc & Ht)|(Hnone & Hc & Ht)])].
    + destruct (String.eqb_spec (discord_id e) (pa_discord_id q)) as [Heq|_];
        [congruence|].
      destruct (Hcnt q Hin) as [H1 H2]. simpl. rewrite H1, H2. split; lia.
    + rewrite Hid, String.eqb_refl. simpl. destruct (Hcnt p Hp) as [H1 H2].
      rewrite Hpid in H1, H2. rewrite Hc, Ht, H1, H2. split; lia.
    + rewrite Hid, String.eqb_refl. simpl.
      rewrite (filter_all_false _ rows).
      * simpl. rewrite Hc, Ht. split; [reflexivity|lia].
      * intros x Hx. unfold by_discord_id. destruct (String.eqb_spec (discord_id x) (discord_id e)) as [Hxe|]; [|reflexivity].
        destruct (Hcov x Hx) as (p & Hp & Hpx). exfalso. apply (Hnone p Hp). congruence.
  - intros x Hx. apply in_app_or in Hx as [Hx|[<-|[]]].
    + destruct (Hcov x Hx) as (p & Hp & Hpx).
      assert (Hm : In (discord_id x) (map pa_discord_id (group_add (discord_id e) (amount e) acc))).
      { rewrite group_add_ids. rewrite <- Hpx. destruct (existsb _ acc);
          [|apply in_or_app; left]; now apply in_map. }
      apply in_map_iff in Hm as (q & Hq & Hqin). exists q. tauto.
    + assert (Hm : In (discord_id e) (map pa_discord_id (group_add (discord_id e) (amount e) acc))).
      { rewrite group_add_ids. destruct (existsb _ acc) eqn:Ex.
        - apply existsb_exists in Ex as (p & Hp & Hpx). apply String.eqb_eq in Hpx.
          rewrite <- Hpx. now apply in_map.
        - apply in_or_app. right. now left. }
      apply in_map_iff in Hm as (q & Hq & Hqin). exists q. tauto.
Qed.

Lemma group_by_discord_id_spec rows : groups_of (group_by_discord_id rows) rows.
Proof.
  unfold group_by_discord_id. induction rows as [|e rows IH] using rev_ind.
  - split; [constructor|]. split; intros ? [].
  - rewrite fold_left_app. simpl. now apply groups_of_add.
Qed.

Lemma pwa_before_total p q : pwa_before p q = false -> pwa_before q p = true.
Proof.
  unfold pwa_before. rewrite !orb_false_iff, !orb_true_iff, !andb_false_iff, !andb_true_iff,
    Nat.ltb_ge, Nat.ltb_lt, Nat.eqb_neq, Nat.eqb_eq, Z.leb_gt, Z.leb_le.
  intros [H1 [H2|H2]]; [left; lia|]. destruct (Nat.eq_dec (entry_count p) (entry_count q)).
  - right. split; [congruence|lia].
  - left. lia.
Qed.

Section Sorting.
Context {A : Type} (le : A -> A -> bool).
Hypothesis le_total : forall x y, le x y = false -> le y x = true.

Lemma insert_by_sorted x l :
  Sorted (fun a b => le a b = true) l ->
  Sorted (fun a b => le a b = true) (insert_by le x l).
Proof.
  induction l as [|a l IH]; intros Hs; simpl.
  - repeat constructor.
  - destruct (le x a) eqn:E.
    + constructor; [assumption|]. now constructor.
    + inversion Hs as [|? ? Hs' Hhd]; subst. constructor; [now apply IH|].
      destruct l as [|b l']; simpl.
      * constructor. now apply le_total.
      * destruct (le x b); constructor; [now apply le_total|].
        now inversion Hhd.
Qed.

Lemma sort_by_sorted l : Sorted (fun a b => le a b = true) (sort_by le l).
Proof. induction l; simpl; [constructor|]. now apply insert_by_sorted. Qed.
End Sorting.

Lemma insert_by_perm {A} (le : A -> A -> bool) x l : Permutation (insert_by le x l) (x :: l).
Proof.
  induction l as [|a l IH]; simpl; [reflexivity|].
  destruct (le x a); [reflexivity|].
  rewrite IH. apply perm_swap.
Qed.

Lemma sort_by_perm {A} (le : A -> A -> bool) l : Permutation (sort_by le l) l.
Proof.
  induction l as [|a l IH]; simpl; [reflexivity|].
  rewrite insert_by_perm. now apply perm_skip.
Qed.

(** C2 (counterexample): on the pot [confirmed(5, A); confirmed(5, A);
    instant_win(5, B)] the status has neither total 15 nor 2 participants. *)
Lemma get_pot_status_example_not_15 :
  ~ (exists st, get_pot_status ex_status_db "g"%string = Some st
                /\ ps_total_amount st = 15 /\ participant_count st = 2%nat).
Proof.
  intros (st & H & H15 & _). vm_compute in H. injection H as <-. discriminate.
Qed.

(** C2 (amended): [get_pot_status] aggregates only the confirmed entries
    of the current pot (instant_win entries are left out): the total is
    the summed amount of those entries; each participant appears once,
    with the number and summed amount of their confirmed entries; every
    user with a confirmed entry appears; the list is ordered by entry
    count descending, then summed amount descending; the participant
    count is its length.  On [confirmed(5, A); confirmed(5, A);
    instant_win(5, B)] it returns total 10, one participant, [A: 2, 10]. *)
Theorem get_pot_status_confirmed_only :
  (forall (db : DB) (g : string) (st : PotStatus),
     get_pot_status db g = Some st ->
     exists pot, get_current_pot db g = Some pot /\
       let rows := filter (confirmed_of_pot (p_pot_id pot)) (pot_entries db) in
       ps_pot_id st = p_pot_id pot /\
       ps_total_amount st = sum_amounts rows /\
       participant_count st = List.length (participants st) /\
       Sorted (fun p q => pwa_before p q = true) (participants st) /\
       NoDup (map pa_discord_id (participants st)) /\
       (forall p, In p (participants st) ->
          entry_count p = List.length (filter (by_discord_id (pa_discord_id p)) rows) /\
          total_amount p = sum_amounts (filter (by_discord_id (pa_discord_id p)) rows)) /\
       (forall e, In e rows ->
          exists p, In p (participants st) /\ pa_discord_id p = discord_id e)) /\
  get_pot_status ex_status_db "g"%string
  = Some (mkPotStatus 1 10 1 [mkPWA "A"%string 2 10] 0).
Proof.
  split; [|vm_compute; reflexivity].
  intros db g st H. unfold get_pot_status in H.
  destruct (get_current_pot db g) as [pot|] eqn:Hp; [|discriminate].
  injection H as <-. exists pot. split; [reflexivity|]. cbn zeta. simpl.
  set (rows := filter (confirmed_of_pot (p_pot_id pot)) (pot_entries db)).
  destruct (group_by_discord_id_spec rows) as (Hnd & Hcnt & Hcov).
  pose proof (sort_by_perm pwa_before (group_by_discord_id rows)) as Hperm.
  split; [reflexivity|]. split; [reflexivity|]. split; [reflexivity|].
  split; [apply sort_by_sorted, pwa_before_total|].
  split; [eapply Permutation_NoDup; [symmetry; apply Permutation_map, Hperm|exact Hnd]|].
  split.
  - intros p Hin. apply Hcnt. rewrite sort_by_In in Hin. exact Hin.
  - intros e He. destruct (Hcov e He) as (p & Hin & Hid). exists p.
    rewrite sort_by_In. tauto.
Qed.

(** ** Payouts happen only after a successful send *)

Lemma send_then_win_pot_fail db now send g w amt ann :
  send w amt = false ->
  send_then_win_pot db now send g w amt ann = (db, [SendFunds w amt], false).
Proof. intros H. unfold send_then_win_pot. now rewrite H. Qed.

Section FailedSends.
Variable send : string -> Z -> bool.
Hypothesis send_fails : forall w a, send w a = false.

Lemma draw_guild_failed_send coin pick now db g db' ev :
  draw_guild coin pick send now db g = Some (db', ev) -> db' = db.
Proof.
  unfold draw_guild.
  destruct (get_pot_status db g) as [st|]; [|congruence].
  destruct (Nat.eqb (participant_count st) 0); [congruence|].
  destruct (random_below (coin g) (4 # 10)); [|congruence].
  destruct (get_active_pot_participants db g) as [|p ps]; [congruence|].
  destruct (random_choice _ _) as [w|]; [|congruence].
  rewrite send_then_win_pot_fail by apply send_fails. congruence.
Qed.

Lemma draw_loop_failed_send coin pick now gs db log :
  fst (draw_loop coin pick send now gs db log) = db.
Proof.
  revert log. induction gs as [|g gs IH]; intros log; simpl; [reflexivity|].
  destruct (draw_guild coin pick send now db g) as [[db' ev]|] eqn:E; [|reflexivity].
  apply draw_guild_failed_send in E. subst. apply IH.
Qed.

Lemma force_end_pot_failed_send db now pick g :
  fst (force_end_pot db now pick send g) = db.
Proof.
  unfold force_end_pot.
  destruct (get_pot_status db g) as [st|]; [|reflexivity].
  destruct (Nat.eqb (participant_count st) 0); [reflexivity|].
  destruct (get_active_pot_participants db g) as [|p ps]; [reflexivity|].
  destruct (random_choice _ _) as [w|]; [|reflexivity].
  rewrite send_then_win_pot_fail by apply send_fails. reflexivity.
Qed.

Lemma confirm_step_failed_send resp now st x :
  pots (fst (confirm_step resp send now st x)) = pots (fst st) /\
  users (fst (confirm_step resp send now st x)) = users (fst st).
Proof.
  destruct st as [db log], x as [e pg]. unfold confirm_step.
  destruct (resp e) as [reqs|]; [|auto].
  destruct (existsb _ reqs); [|auto].
  destruct (entry_status_eqb (status e) InstantWin); [|auto].
  destruct (get_pot_status _ pg) as [st|]; [|auto].
  rewrite send_then_win_pot_fail by apply send_fails. auto.
Qed.

Lemma fold_confirm_failed_send resp now l st :
  pots (fst (fold_left (confirm_step resp send now) l st)) = pots (fst st) /\
  users (fst (fold_left (confirm_step resp send now) l st)) = users (fst st).
Proof.
  revert st. induction l as [|x l IH]; intros st; simpl; [auto|].
  destruct (IH (confirm_step resp send now st x)) as [-> ->].
  apply confirm_step_failed_send.
Qed.
End FailedSends.

Lemma fold_expire_tables deny_ok l st :
  pots (fst (fold_left (expire_step deny_ok) l st)) = pots (fst st) /\
  users (fst (fold_left (expire_step deny_ok) l st)) = users (fst st).
Proof.
  revert st. induction l as [|x l IH]; intros st; simpl; [auto|].
  destruct (IH (expire_step deny_ok st x)) as [-> ->].
  destruct st as [db log]. unfold expire_step. destruct (deny_ok (fst x)); auto.
Qed.

(** C4: every payout path goes through [send_then_win_pot], which calls
    [win_pot] only when the send reports success and otherwise returns
    the store unchanged; hence when every send fails, the daily draw and
    the forced draw leave the store exactly as it was, and a reconciliation
    tick leaves the [pots] and [users] tables as they were (its only
    writes are the entry confirmations and denials), so every pot stays
    active and unwon. *)
Theorem payout_only_after_successful_send :
  (forall db now send g w amt ann,
     send w amt = false ->
     send_then_win_pot db now send g w amt ann = (db, [SendFunds w amt], false)) /\
  (forall db now send g w amt ann,
     send w amt = true ->
     send_then_win_pot db now send g w amt ann
     = (win_pot db now g w amt, [SendFunds w amt; Announce g ann], true)) /\
  (forall send, (forall w a, send w a = false) ->
     (forall coin pick now db, fst (daily_pot_draw coin pick send now db) = db) /\
     (forall db now pick g, fst (force_end_pot db now pick send g) = db) /\
     (forall resp deny_ok now db,
        pots (fst (process_stackcoin_requests resp send deny_ok now db)) = pots db /\
        users (fst (process_stackcoin_requests resp send deny_ok now db)) = users db)).
Proof.
  split; [exact send_then_win_pot_fail|]. split.
  - intros db now send g w amt ann H. unfold send_then_win_pot. now rewrite H.
  - intros send Hf. split; [|split].
    + intros. apply draw_loop_failed_send, Hf.
    + intros. apply force_end_pot_failed_send, Hf.
    + intros resp deny_ok now db. unfold process_stackcoin_requests.
      destruct (fold_left (confirm_step resp send now) (get_unconfirmed_entries db now) (db, []))
        as [db1 log1] eqn:E.
      destruct (fold_expire_tables deny_ok (get_expired_entries db1 now) (db1, log1)) as [-> ->].
      simpl. destruct (fold_confirm_failed_send send Hf resp now (get_unconfirmed_entries db now) (db, []))
        as [H1 H2].
      rewrite E in H1, H2. auto.
Qed.

(** ** Weighted winner selection *)

Lemma count_indices (l : list string) (a : string) :
  List.length (filter (fun i => match nth_error l i with
                                | Some x => String.eqb x a
                                | None => false
                                end) (seq 0 (List.length l)))
  = count_occ String.string_dec l a.
Proof.
  induction l as [|x l IH]; [reflexivity|].
  cbn [List.length seq filter nth_error count_occ].
  rewrite <- seq_shift, filter_map_swap. cbn [nth_error].
  destruct (String.eqb_spec x a), (String.string_dec x a); try congruence;
    simpl; rewrite length_map, IH; reflexivity.
Qed.

Lemma count_weighted ps p :
  NoDup (map pt_discord_id ps) -> In p ps ->
  count_occ String.string_dec (weighted_participants ps) (pt_discord_id p) = entries p.
Proof.
  induction ps as [|q ps IH]; intros Hnd Hin; [destruct Hin|].
  inversion Hnd as [|? ? Hnin Hnd']; subst.
  unfold weighted_participants. simpl. rewrite count_occ_app.
  fold (weighted_participants ps). destruct Hin as [<-|Hin].
  - rewrite count_occ_repeat_eq by reflexivity.
    rewrite (proj1 (count_occ_not_In _ _ _)); [lia|].
    intros Hw. apply Hnin. unfold weighted_participants in Hw.
    apply in_flat_map in Hw as (r & Hr & Hrep). apply repeat_spec in Hrep.
    rewrite Hrep. now apply in_map.
  - assert (Hne : pt_discord_id p <> pt_discord_id q).
    { intros Heq. apply Hnin. rewrite <- Heq. now apply in_map. }
    rewrite count_occ_repeat_neq by exact Hne. rewrite IH; auto.
Qed.

Lemma length_weighted ps :
  List.length (weighted_participants ps) = list_sum (map entries ps).
Proof.
  unfold weighted_participants. rewrite length_flat_map.
  f_equal. apply map_ext. intros. apply repeat_length.
Qed.

Lemma random_choice_below l r :
  (r < List.length l)%nat -> random_choice l r = nth_error l r.
Proof.
  intros H. destruct l as [|x l]; [simpl in H; lia|].
  unfold random_choice. now rewrite Nat.mod_small.
Qed.

Lemma group_add_counts_pos d amt acc :
  Forall (fun p => (1 <= entry_count p)%nat) acc ->
  Forall (fun p => (1 <= entry_count p)%nat) (group_add d amt acc).
Proof.
  induction acc as [|p r IH]; intros H; simpl.
  - constructor; [simpl; lia|constructor].
  - inversion H; subst. destruct (String.eqb (pa_discord_id p) d).
    + constructor; [simpl; lia|assumption].
    + constructor; auto.
Qed.

Lemma group_by_counts_pos rows :
  Forall (fun p => (1 <= entry_count p)%nat) (group_by_discord_id rows).
Proof.
  unfold group_by_discord_id. induction rows as [|e rows IH] using rev_ind.
  - constructor.
  - rewrite fold_left_app. simpl. now apply group_add_counts_pos.
Qed.

Lemma active_participants_wf db g :
  NoDup (map pt_discord_id (get_active_pot_participants db g)) /\
  Forall (fun p => (1 <= entries p)%nat) (get_active_pot_participants db g).
Proof.
  unfold get_active_pot_participants.
  destruct (get_current_pot db g) as [pot|]; [|split; constructor].
  set (rows := filter (confirmed_of_pot (p_pot_id pot)) (pot_entries db)).
  destruct (group_by_discord_id_spec rows) as [Hnd _].
  pose proof (group_by_counts_pos rows) as Hpos.
  rewrite map_map. simpl. split; [exact Hnd|].
  apply Forall_map. exact Hpos.
Qed.

(** C6: the multiset [weighted_participants] holds each participant id of
    a list without repeated ids exactly [entries] times and has the total
    entry count as its size, so among the [length] equally likely values
    [0 .. length-1] of the generator behind [random.choice], exactly
    [entries p] select [p]; [random.choice] fails on an empty multiset;
    and the lists the callers pass come from [get_active_pot_participants],
    whose ids are distinct with at least one entry each, so a non-empty
    participant list always yields a winner. *)
Theorem weighted_winner_selection :
  (forall ps p, NoDup (map pt_discord_id ps) -> In p ps ->
     count_occ String.string_dec (weighted_participants ps) (pt_discord_id p) = entries p /\
     List.length (filter (fun r => match random_choice (weighted_participants ps) r with
                                   | Some x => String.eqb x (pt_discord_id p)
                                   | None => false
                                   end)
                        (seq 0 (List.length (weighted_participants ps))))
     = entries p) /\
  (forall ps, List.length (weighted_participants ps) = list_sum (map entries ps)) /\
  (forall r, random_choice [] r = None) /\
  (forall db g, NoDup (map pt_discord_id (get_active_pot_participants db g)) /\
     Forall (fun p => (1 <= entries p)%nat) (get_active_pot_participants db g)) /\
  (forall db g r, get_active_pot_participants db g <> [] ->
     exists w, random_choice (weighted_participants (get_active_pot_participants db g)) r
               = Some w).
Proof.
  split; [|split; [exact length_weighted|split; [reflexivity|split; [exact active_participants_wf|]]]].
  - intros ps p Hnd Hin. split; [now apply count_weighted|].
    rewrite <- (count_weighted ps p Hnd Hin), <- count_indices.
    f_equal. apply filter_ext_in. intros r Hr. apply in_seq in Hr.
    rewrite random_choice_below by lia. reflexivity.
  - intros db g r Hne. destruct (active_participants_wf db g) as [_ Hpos].
    destruct (get_active_pot_participants db g) as [|p ps] eqn:E; [congruence|].
    inversion Hpos as [|? ? Hp _]; subst.
    destruct (weighted_participants (p :: ps)) as [|x l] eqn:W.
    + unfold weighted_participants in W. simpl in W.
      destruct (entries p); [lia|discriminate].
    + unfold random_choice.
      destruct (nth_error (x :: l) (r mod List.length (x :: l))) as [w|] eqn:N; [now exists w|].
      apply nth_error_None in N. pose proof (Nat.mod_upper_bound r (List.length (x :: l))).
      simpl in *. lia.
Qed.

(** ** Entry admission rejections *)

Lemma admission_pot_entries db now g d :
  pot_entries (fst (admission_pot db now g d)) = pot_entries db.
Proof.
  unfold admission_pot, get_or_create_user.
  destruct (existsb _ (users db));
    [destruct (get_current_pot db g)|destruct (get_current_pot _ g)]; reflexivity.
Qed.

Lemma enter_pot_unfold db now g d user us cr coin :
  enter_pot db now g d (UsersOk (user :: us)) cr coin =
  let '(db2, pid) := admission_pot db now g d in
  if negb (can_user_enter_pot db2 now d g pid) then (db2, [Respond ReplyCooldown])
  else
    match su_id user with
    | None => (db2, [Respond ReplyRequestFailed])
    | Some user_id =>
        match cr with
        | None => (db2, [CreateRequest user_id 5; Respond ReplyRequestFailed])
        | Some request_id =>
            let instant_win := random_below coin (5 # 100) in
            let '(db3, _) := create_pot_entry db2 now pid d g request_id instant_win in
            if instant_win then
              (db3, [CreateRequest user_id 5;
                     Respond (ReplyInstantWin
                       (match get_pot_status db3 g with
                        | Some st => ps_total_amount st
                        | None => 0
                        end + 5))])
            else (db3, [CreateRequest user_id 5; Respond ReplyEntered])
        end
    end.
Proof. reflexivity. Qed.

(** C7: when the cooldown check fails, [EnterPot.invoke] answers "cooldown"
    without calling [stackcoin_create_request], and the store differs from
    the initial one only by the ensured user and pot rows (no entry row);
    when the debit request cannot be created (or is never attempted), no
    entry row is stored, whatever the users lookup returned. *)
Theorem enter_pot_rejections (db : DB) (now : Z) (g d : string) (coin : Q) :
  (forall user us cr,
     can_user_enter_pot (fst (admission_pot db now g d)) now d g
       (snd (admission_pot db now g d)) = false ->
     enter_pot db now g d (UsersOk (user :: us)) cr coin
       = (fst (admission_pot db now g d), [Respond ReplyCooldown]) /\
     (forall uid a, ~ In (CreateRequest uid a)
                        (snd (enter_pot db now g d (UsersOk (user :: us)) cr coin))) /\
     pot_entries (fst (enter_pot db now g d (UsersOk (user :: us)) cr coin)) = pot_entries db) /\
  (forall ur,
     pot_entries (fst (enter_pot db now g d ur None coin)) = pot_entries db).
Proof.
  split.
  - intros user us cr Hc. rewrite enter_pot_unfold.
    destruct (admission_pot db now g d) as [db2 pid] eqn:E. simpl in Hc |- *.
    rewrite Hc. simpl. split; [reflexivity|]. split.
    + intros uid a [H|[]]. discriminate.
    + rewrite <- (admission_pot_entries db now g d), E. reflexivity.
  - intros [|[|user us]]; [reflexivity|reflexivity|].
    rewrite enter_pot_unfold.
    destruct (admission_pot db now g d) as [db2 pid] eqn:E.
    assert (H2 : pot_entries db2 = pot_entries db)
      by (rewrite <- (admission_pot_entries db now g d), E; reflexivity).
    destruct (negb _); [exact H2|]. destruct (su_id user); exact H2.
Qed.

(** ** Entry statuses only move forward *)

Lemma status_forward_trans a b c :
  status_forward a b -> status_forward b c -> status_forward a c.
Proof. unfold status_forward. intros [->|[Ha Hb]] [->|[Hb' Hc]]; auto; congruence. Qed.

Lemma Forall2_entry_forward_refl l : Forall2 entry_forward l l.
Proof.
  induction l; constructor; [|assumption]. split; [reflexivity|now left].
Qed.

Lemma Forall2_entry_forward_trans l1 l2 l3 :
  Forall2 entry_forward l1 l2 -> Forall2 entry_forward l2 l3 -> Forall2 entry_forward l1 l3.
Proof.
  intros H12. revert l3. induction H12 as [|a b l1 l2 Hab H12 IH]; intros l3 H23;
    inversion H23 as [|? c ? l3' Hbc H23']; subst; constructor; [|now apply IH].
  destruct Hab as [Hi1 Hs1], Hbc as [Hi2 Hs2]. split; [congruence|].
  eapply status_forward_trans; eassumption.
Qed.

Lemma Forall2_entry_forward_ids l l' :
  Forall2 entry_forward l l' -> map entry_id l = map entry_id l'.
Proof. induction 1 as [|a b l l' [Hi _] _ IH]; simpl; congruence. Qed.

Lemma entries_forward_refl l : entries_forward l l.
Proof. exists l, []. rewrite app_nil_r. split; [reflexivity|apply Forall2_entry_forward_refl]. Qed.

Lemma entries_forward_trans l1 l2 l3 :
  entries_forward l1 l2 -> entries_forward l2 l3 -> entries_forward l1 l3.
Proof.
  intros (p & ext & -> & H1) (p' & ext' & -> & H2).
  apply Forall2_app_inv_l in H2 as (p1 & p2 & Hp1 & Hp2 & ->).
  exists p1, (p2 ++ ext'). split; [symmetry; apply app_assoc|].
  eapply Forall2_entry_forward_trans; eassumption.
Qed.

Lemma NoDup_map_same {A B} (f : A -> B) l a b :
  NoDup (map f l) -> In a l -> In b l -> f a = f b -> a = b.
Proof.
  induction l as [|x l IH]; simpl; [tauto|]. intros Hnd Ha Hb Hab.
  inversion Hnd as [|? ? Hnin Hnd']; subst.
  destruct Ha as [<-|Ha], Hb as [<-|Hb]; auto.
  - exfalso. apply Hnin. rewrite Hab. now apply in_map.
  - exfalso. apply Hnin. rewrite <- Hab. now apply in_map.
Qed.

(** An [UPDATE ... WHERE entry_id = eid] to status [st] moves every row
    forward when the rows it hits are in [st] or unconfirmed. *)
Lemma update_forward (f : PotEntry -> PotEntry) eid st l :
  (forall e, entry_id (f e) = entry_id e) ->
  (forall e, Nat.eqb (entry_id e) eid = false -> f e = e) ->
  (forall e, Nat.eqb (entry_id e) eid = true -> status (f e) = st) ->
  st <> Unconfirmed ->
  (forall r, In r l -> entry_id r = eid -> status r = Unconfirmed \/ status r = st) ->
  Forall2 entry_forward l (map f l).
Proof.
  intros Hid Hsame Hset Hst. induction l as [|r l IH]; intros Hrows; simpl; constructor.
  - split; [symmetry; apply Hid|].
    destruct (Nat.eqb (entry_id r) eid) eqn:E.
    + rewrite (Hset r E). apply Nat.eqb_eq in E.
      destruct (Hrows r (or_introl eq_refl) E) as [ -> | -> ]; [right; split; auto|now left].
    + rewrite (Hsame r E). now left.
  - apply IH. intros r' Hr'. apply Hrows. now right.
Qed.

Lemma set_status_where_forward eid st l :
  st <> Unconfirmed ->
  (forall r, In r l -> entry_id r = eid -> status r = Unconfirmed \/ status r = st) ->
  Forall2 entry_forward l (map (set_status_where eid st) l).
Proof.
  intros Hst. apply update_forward; [| | |exact Hst].
  - intros e. unfold set_status_where. now destruct (Nat.eqb (entry_id e) eid).
  - intros e E. unfold set_status_where. now rewrite E.
  - intros e E. unfold set_status_where. now rewrite E.
Qed.

Lemma confirm_where_forward eid now l :
  (forall r, In r l -> entry_id r = eid -> status r = Unconfirmed \/ status r = Confirmed) ->
  Forall2 entry_forward l (map (confirm_where eid now) l).
Proof.
  apply update_forward; [| | |discriminate].
  - intros e. unfold confirm_where. now destruct (Nat.eqb (entry_id e) eid).
  - intros e E. unfold confirm_where. now rewrite E.
  - intros e E. unfold confirm_where. now rewrite E.
Qed.

(** What one iteration of the confirmation loop does to [pot_entries]. *)
Lemma confirm_step_shape resp send now st x :
  next_entry_id (fst (confirm_step resp send now st x)) = next_entry_id (fst st) /\
  (pot_entries (fst (confirm_step resp send now st x)) = pot_entries (fst st) \/
   pot_entries (fst (confirm_step resp send now st x))
   = map (confirm_where (entry_id (fst x)) now) (pot_entries (fst st))).
Proof.
  destruct st as [db log], x as [e pg]. unfold confirm_step. simpl.
  destruct (resp e) as [reqs|]; [|auto].
  destruct (existsb _ reqs); [|auto].
  destruct (entry_status_eqb (status e) InstantWin); [|auto].
  destruct (get_pot_status _ pg) as [st|]; [|auto].
  unfold send_then_win_pot. destruct (send _ _); simpl; auto.
Qed.

Lemma expire_step_shape deny_ok st x :
  next_entry_id (fst (expire_step deny_ok st x)) = next_entry_id (fst st) /\
  (pot_entries (fst (expire_step deny_ok st x)) = pot_entries (fst st) \/
   pot_entries (fst (expire_step deny_ok st x))
   = map (set_status_where (entry_id (fst x)) Denied) (pot_entries (fst st))).
Proof.
  destruct st as [db log]. unfold expire_step. destruct (deny_ok (fst x)); simpl; auto.
Qed.

(** The two passes, over a snapshot whose rows, at the time they are
    reached, are unconfirmed or already in the pass's target status. *)
Lemma fold_confirm_forward resp send tconf l st :
  (forall x r, In x l -> In r (pot_entries (fst st)) -> entry_id r = entry_id (fst x) ->
     status r = Unconfirmed \/ status r = Confirmed) ->
  next_entry_id (fst (fold_left (fun st x => confirm_step resp send (tconf (fst x)) st x) l st))
  = next_entry_id (fst st) /\
  Forall2 entry_forward (pot_entries (fst st))
    (pot_entries (fst (fold_left (fun st x => confirm_step resp send (tconf (fst x)) st x) l st))).
Proof.
  revert st. induction l as [|x l IH]; intros st Hrows; simpl.
  - split; [reflexivity|apply Forall2_entry_forward_refl].
  - destruct (confirm_step_shape resp send (tconf (fst x)) st x) as [Hn [Hs|Hs]].
    + destruct (IH (confirm_step resp send (tconf (fst x)) st x)) as [Hn' Hf].
      * intros y r Hy Hr. rewrite Hs in Hr. apply Hrows; [now right|exact Hr].
      * rewrite Hn', Hn. split; [reflexivity|]. now rewrite Hs in Hf.
    + destruct (IH (confirm_step resp send (tconf (fst x)) st x)) as [Hn' Hf].
      * intros y r Hy Hr Hid. rewrite Hs in Hr.
        apply in_map_iff in Hr as (r0 & <- & Hr0). unfold confirm_where in *.
        destruct (Nat.eqb (entry_id r0) (entry_id (fst x))); [now right|].
        apply (Hrows y); [now right|exact Hr0|exact Hid].
      * rewrite Hn', Hn. split; [reflexivity|].
        eapply Forall2_entry_forward_trans; [|exact Hf]. rewrite Hs.
        apply confirm_where_forward. intros r Hr Hid.
        apply (Hrows x); [now left|exact Hr|exact Hid].
Qed.

Lemma fold_expire_forward deny_ok l st :
  (forall x r, In x l -> In r (pot_entries (fst st)) -> entry_id r = entry_id (fst x) ->
     status r = Unconfirmed \/ status r = Denied) ->
  next_entry_id (fst (fold_left (expire_step deny_ok) l st)) = next_entry_id (fst st) /\
  Forall2 entry_forward (pot_entries (fst st))
    (pot_entries (fst (fold_left (expire_step deny_ok) l st))).
Proof.
  revert st. induction l as [|x l IH]; intros st Hrows; simpl.
  - split; [reflexivity|apply Forall2_entry_forward_refl].
  - destruct (expire_step_shape deny_ok st x) as [Hn [Hs|Hs]].
    + destruct (IH (expire_step deny_ok st x)) as [Hn' Hf].
      * intros y r Hy Hr. rewrite Hs in Hr. apply Hrows; [now right|exact Hr].
      * rewrite Hn', Hn. split; [reflexivity|]. now rewrite Hs in Hf.
    + destruct (IH (expire_step deny_ok st x)) as [Hn' Hf].
      * intros y r Hy Hr Hid. rewrite Hs in Hr.
        apply in_map_iff in Hr as (r0 & <- & Hr0). unfold set_status_where in *.
        destruct (Nat.eqb (entry_id r0) (entry_id (fst x))); [now right|].
        apply (Hrows y); [now right|exact Hr0|exact Hid].
      * rewrite Hn', Hn. split; [reflexivity|].
        eapply Forall2_entry_forward_trans; [|exact Hf]. rewrite Hs.
        apply set_status_where_forward; [discriminate|]. intros r Hr Hid.
        apply (Hrows x); [now left|exact Hr|exact Hid].
Qed.

Lemma wf_db_same_ids db db' :
  wf_db db -> next_entry_id db' = next_entry_id db ->
  Forall2 entry_forward (pot_entries db) (pot_entries db') -> wf_db db'.
Proof.
  intros [Hnd Hlt] Hn Hf. pose proof (Forall2_entry_forward_ids _ _ Hf) as Hids.
  split; [now rewrite <- Hids|].
  apply Forall_forall. intros e He. rewrite Hn.
  assert (Hm : In (entry_id e) (map entry_id (pot_entries db)))
    by (rewrite Hids; now apply in_map).
  apply in_map_iff in Hm as (e0 & He0 & Hin). rewrite <- He0.
  exact (proj1 (Forall_forall _ _) Hlt e0 Hin).
Qed.

Lemma process_stackcoin_requests_forward resp send deny_ok t0 tconf t1 db :
  wf_db db ->
  let db' := fst (fst (process_stackcoin_requests_timed resp send deny_ok t0 tconf t1 db)) in
  wf_db db' /\ Forall2 entry_forward (pot_entries db) (pot_entries db').
Proof.
  intros Hwf. unfold process_stackcoin_requests_timed.
  destruct (fold_confirm_forward resp send tconf (get_unconfirmed_entries db t0) (db, []))
    as [Hn1 Hf1].
  { intros x r Hx Hr Hid. simpl in Hr. apply get_unconfirmed_entries_In in Hx as [Hx Hs].
    left. rewrite <- Hs. f_equal. eapply NoDup_map_same; eauto. apply Hwf. }
  destruct (fold_left (fun st x => confirm_step resp send (tconf (fst x)) st x)
              (get_unconfirmed_entries db t0) (db, []))
    as [db1 log1] eqn:E. simpl in Hn1, Hf1.
  assert (Hwf1 : wf_db db1) by (eapply wf_db_same_ids; eauto).
  destruct (fold_expire_forward deny_ok (get_expired_entries db1 t1) (db1, log1)) as [Hn2 Hf2].
  { intros x r Hx Hr Hid. simpl in Hr. apply get_expired_entries_In in Hx as [Hx Hs].
    left. rewrite <- Hs. f_equal. eapply NoDup_map_same; eauto. apply Hwf1. }
  destruct (fold_left (expire_step deny_ok) (get_expired_entries db1 t1) (db1, log1))
    as [db2 log2] eqn:E2.
  simpl in Hn2, Hf2 |- *. split.
  - eapply wf_db_same_ids; eauto.
  - eapply Forall2_entry_forward_trans; eauto.
Qed.

Lemma draw_guild_entries coin pick send now db g db' ev :
  draw_guild coin pick send now db g = Some (db', ev) ->
  pot_entries db' = pot_entries db /\ next_entry_id db' = next_entry_id db.
Proof.
  unfold draw_guild.
  destruct (get_pot_status db g) as [st|]; [|intros H; injection H as <-; auto].
  destruct (Nat.eqb (participant_count st) 0); [intros H; injection H as <-; auto|].
  destruct (random_below (coin g) (4 # 10)); [|intros H; injection H as <-; auto].
  destruct (get_active_pot_participants db g) as [|p ps]; [intros H; injection H as <-; auto|].
  destruct (random_choice _ _) as [w|]; [|discriminate].
  unfold send_then_win_pot. destruct (send _ _); intros H; injection H as <-; auto.
Qed.

Lemma draw_loop_entries coin pick send now gs db log :
  pot_entries (fst (draw_loop coin pick send now gs db log)) = pot_entries db /\
  next_entry_id (fst (draw_loop coin pick send now gs db log)) = next_entry_id db.
Proof.
  revert db log. induction gs as [|g gs IH]; intros db log; simpl; [auto|].
  destruct (draw_guild coin pick send now db g) as [[db' ev]|] eqn:E; [|auto].
  apply draw_guild_entries in E as [H1 H2]. rewrite <- H1, <- H2. apply IH.
Qed.

Lemma force_end_pot_entries db now pick send g :
  pot_entries (fst (force_end_pot db now pick send g)) = pot_entries db /\
  next_entry_id (fst (force_end_pot db now pick send g)) = next_entry_id db.
Proof.
  unfold force_end_pot.
  destruct (get_pot_status db g) as [st|]; [|auto].
  destruct (Nat.eqb (participant_count st) 0); [auto|].
  destruct (get_active_pot_participants db g) as [|p ps]; [auto|].
  destruct (random_choice _ _) as [w|]; [|auto].
  unfold send_then_win_pot. destruct (send _ _); simpl; auto.
Qed.

Lemma admission_pot_next db now g d :
  next_entry_id (fst (admission_pot db now g d)) = next_entry_id db.
Proof.
  unfold admission_pot, get_or_create_user.
  destruct (existsb _ (users db));
    [destruct (get_current_pot db g)|destruct (get_current_pot _ g)]; reflexivity.
Qed.

Lemma create_pot_entry_forward db now pid d g rid iw :
  wf_db db ->
  wf_db (fst (create_pot_entry db now pid d g rid iw)) /\
  entries_forward (pot_entries db) (pot_entries (fst (create_pot_entry db now pid d g rid iw))).
Proof.
  intros [Hnd Hlt]. unfold create_pot_entry. simpl.
  set (new := mkEntry (next_entry_id db) pid d g 5 Unconfirmed rid now None).
  assert (Hl : map (set_status_where (next_entry_id db) InstantWin) (pot_entries db)
               = pot_entries db).
  { rewrite <- (map_id (pot_entries db)) at 2. apply map_ext_in. intros e He.
    unfold set_status_where. destruct (Nat.eqb_spec (entry_id e) (next_entry_id db)); [|reflexivity].
    pose proof (proj1 (Forall_forall _ _) Hlt e He) as Hle. simpl in Hle. lia. }
  assert (Hnew : exists new', (if iw then map (set_status_where (next_entry_id db) InstantWin)
                                   (pot_entries db ++ [new]) else pot_entries db ++ [new])
                            = pot_entries db ++ [new'] /\ entry_id new' = next_entry_id db).
  { destruct iw.
    - exists (set_status_where (next_entry_id db) InstantWin new). rewrite map_app, Hl.
      split; [reflexivity|]. unfold set_status_where. simpl. now rewrite Nat.eqb_refl.
    - now exists new. }
  destruct Hnew as (new' & -> & Hid). split; [split|].
  - simpl. rewrite map_app. apply NoDup_app; [assumption|constructor; [intros []|constructor]|].
    intros x Hx [Hx'|[]]. simpl in Hx'. rewrite Hid in Hx'. subst x.
    apply in_map_iff in Hx as (e & He & Hin).
    pose proof (proj1 (Forall_forall _ _) Hlt e Hin) as Hle. simpl in Hle. lia.
  - simpl. apply Forall_app. split.
    + eapply Forall_impl; [|exact Hlt]. simpl. intros e He. lia.
    + constructor; [|constructor]. rewrite Hid. lia.
  - exists (pot_entries db), [new']. split; [reflexivity|apply Forall2_entry_forward_refl].
Qed.

Lemma enter_pot_forward db now g d ur cr coin :
  wf_db db ->
  wf_db (fst (enter_pot db now g d ur cr coin)) /\
  entries_forward (pot_entries db) (pot_entries (fst (enter_pot db now g d ur cr coin))).
Proof.
  intros Hwf. destruct ur as [|[|user us]]; try (split; [exact Hwf|apply entries_forward_refl]).
  rewrite enter_pot_unfold.
  pose proof (admission_pot_entries db now g d) as He.
  pose proof (admission_pot_next db now g d) as Hn.
  destruct (admission_pot db now g d) as [db2 pid]. simpl in He, Hn.
  assert (Hwf2 : wf_db db2) by (unfold wf_db; rewrite He, Hn; exact Hwf).
  assert (Hf2 : entries_forward (pot_entries db) (pot_entries db2))
    by (rewrite He; apply entries_forward_refl).
  destruct (negb _); [auto|]. destruct (su_id user) as [uid|]; [|auto].
  destruct cr as [rid|]; [|auto]. cbv zeta.
  destruct (create_pot_entry_forward db2 now pid d g rid (random_below coin (5 # 100)) Hwf2)
    as [Hwf3 Hf3].
  destruct (create_pot_entry db2 now pid d g rid (random_below coin (5 # 100)))
    as [db3 eid]. simpl in Hwf3, Hf3.
  assert (entries_forward (pot_entries db) (pot_entries db3))
    by (eapply entries_forward_trans; eauto).
  destruct (random_below coin (5 # 100)); auto.
Qed.

Lemma prog_step_forward db db' :
  prog_step db db' -> wf_db db ->
  wf_db db' /\ entries_forward (pot_entries db) (pot_entries db').
Proof.
  intros Hs Hwf. destruct Hs as [db now g d ur cr coin|db resp send deny_ok t0 tconf t1
                                 |db coin pick send now|db now pick send g].
  - now apply enter_pot_forward.
  - destruct (process_stackcoin_requests_forward resp send deny_ok t0 tconf t1 db Hwf) as [H1 H2].
    split; [exact H1|].
    exists (pot_entries (fst (fst (process_stackcoin_requests_timed resp send deny_ok t0 tconf t1 db)))), [].
    rewrite app_nil_r. split; [reflexivity|exact H2].
  - destruct (draw_loop_entries coin pick send now (get_all_active_guilds db) db []) as [H1 H2].
    unfold daily_pot_draw. unfold wf_db. rewrite H1, H2. split; [exact Hwf|apply entries_forward_refl].
  - destruct (force_end_pot_entries db now pick send g) as [H1 H2].
    unfold wf_db. rewrite H1, H2. split; [exact Hwf|apply entries_forward_refl].
Qed.

Lemma steps_forward db db' :
  clos_refl_trans DB prog_step db db' -> wf_db db ->
  wf_db db' /\ entries_forward (pot_entries db) (pot_entries db').
Proof.
  induction 1 as [x y Hs|x|x y z _ IH1 _ IH2]; intros Hwf.
  - now apply prog_step_forward.
  - split; [exact Hwf|apply entries_forward_refl].
  - destruct (IH1 Hwf) as [Hy Hxy]. destruct (IH2 Hy) as [Hz Hyz].
    split; [exact Hz|]. eapply entries_forward_trans; eauto.
Qed.

(** C8: in every store the program can reach from a fresh database, and
    along every further sequence of program operations (entry admission,
    reconciliation ticks, daily and forced draws), each existing entry
    keeps its place and id, and its status either stays the same or
    leaves [unconfirmed]: no entry returns to [unconfirmed], and an entry
    in confirmed, instant_win or denied never changes status again. *)
Theorem entry_status_only_moves_forward (db db' : DB) :
  clos_refl_trans DB prog_step empty_db db ->
  clos_refl_trans DB prog_step db db' ->
  entries_forward (pot_entries db) (pot_entries db').
Proof.
  intros H0 H1.
  assert (Hwf0 : wf_db empty_db) by (split; constructor).
  destruct (steps_forward _ _ H0 Hwf0) as [Hwf _].
  exact (proj2 (steps_forward _ _ H1 Hwf)).
Qed.

(** ** One reconciliation tick, entry by entry *)

Lemma rows_with_id_map (f : PotEntry -> PotEntry) i l :
  (forall e, entry_id (f e) = entry_id e) ->
  rows_with_id i (map f l) = map f (rows_with_id i l).
Proof.
  intros Hf. induction l as [|a l IH]; simpl; [reflexivity|].
  rewrite Hf. destruct (Nat.eqb (entry_id a) i); simpl; congruence.
Qed.

Lemma map_id_on {A} (f : A -> A) l : (forall x, In x l -> f x = x) -> map f l = l.
Proof.
  induction l as [|a l IH]; intros H; simpl; [reflexivity|].
  rewrite (H a (or_introl eq_refl)), IH; [reflexivity|]. intros x Hx. apply H. now right.
Qed.

Lemma rows_with_id_In i l r : In r (rows_with_id i l) <-> In r l /\ entry_id r = i.
Proof. unfold rows_with_id. rewrite filter_In, Nat.eqb_eq. reflexivity. Qed.

Lemma confirm_where_id j now e : entry_id (confirm_where j now e) = entry_id e.
Proof. unfold confirm_where. now destruct (Nat.eqb (entry_id e) j). Qed.

Lemma set_status_where_id j st e : entry_id (set_status_where j st e) = entry_id e.
Proof. unfold set_status_where. now destruct (Nat.eqb (entry_id e) j). Qed.

Lemma rows_confirm_where i j now l :
  rows_with_id i (map (confirm_where j now) l) =
  if Nat.eqb j i then map (confirm_where i now) (rows_with_id i l) else rows_with_id i l.
Proof.
  rewrite rows_with_id_map by apply confirm_where_id.
  destruct (Nat.eqb_spec j i) as [->|Hne]; [reflexivity|].
  apply map_id_on. intros x Hx. apply rows_with_id_In in Hx as [_ Hx].
  unfold confirm_where. destruct (Nat.eqb_spec (entry_id x) j); [congruence|reflexivity].
Qed.

Lemma rows_set_status_where i j st l :
  rows_with_id i (map (set_status_where j st) l) =
  if Nat.eqb j i then map (set_status_where i st) (rows_with_id i l) else rows_with_id i l.
Proof.
  rewrite rows_with_id_map by apply set_status_where_id.
  destruct (Nat.eqb_spec j i) as [->|Hne]; [reflexivity|].
  apply map_id_on. intros x Hx. apply rows_with_id_In in Hx as [_ Hx].
  unfold set_status_where. destruct (Nat.eqb_spec (entry_id x) j); [congruence|reflexivity].
Qed.

Lemma confirm_where_idem i now e :
  confirm_where i now (confirm_where i now e) = confirm_where i now e.
Proof.
  unfold confirm_where. destruct (Nat.eqb (entry_id e) i) eqn:E; simpl; rewrite ?E; reflexivity.
Qed.

Lemma set_status_where_idem i st e :
  set_status_where i st (set_status_where i st e) = set_status_where i st e.
Proof.
  unfold set_status_where. destruct (Nat.eqb (entry_id e) i) eqn:E; simpl; rewrite ?E; reflexivity.
Qed.

Lemma rows_unique l e :
  NoDup (map entry_id l) -> In e l -> rows_with_id (entry_id e) l = [e].
Proof.
  induction l as [|a l IH]; intros Hnd Hin; [destruct Hin|].
  inversion Hnd as [|? ? Hnin Hnd']; subst. simpl.
  destruct Hin as [<-|Hin].
  - rewrite Nat.eqb_refl. f_equal. apply filter_all_false. intros x Hx.
    apply Nat.eqb_neq. intros Hid. apply Hnin. rewrite <- Hid. now apply in_map.
  - destruct (Nat.eqb_spec (entry_id a) (entry_id e)) as [Hid|_]; [|now apply IH].
    exfalso. apply Hnin. rewrite Hid. now apply in_map.
Qed.

(** Observing a fold through [obs]: the steps that are not [key] leave the
    observation alone, the others apply the same idempotent [h]. *)
Lemma fold_obs {S X T} (step : S -> X -> S) (obs : S -> T) (key : X -> bool) (h : T -> T)
    (l : list X) (s : S) :
  (forall t, h (h t) = h t) ->
  (forall s x, In x l -> key x = false -> obs (step s x) = obs s) ->
  (forall s x, In x l -> key x = true -> obs (step s x) = h (obs s)) ->
  obs (fold_left step l s) = if existsb key l then h (obs s) else obs s.
Proof.
  intros Hh. revert s. induction l as [|x l IH]; intros s H0 H1; simpl; [reflexivity|].
  rewrite IH by first [intros; apply H0; auto using in_cons | intros; apply H1; auto using in_cons].
  destruct (key x) eqn:K; simpl.
  - rewrite (H1 s x (or_introl eq_refl) K). destruct (existsb key l); now rewrite ?Hh.
  - now rewrite (H0 s x (or_introl eq_refl) K).
Qed.

Lemma join_pots_In_iff ps es e g :
  In (e, g) (join_pots ps es) <->
  In e es /\ exists p, In p ps /\ p_pot_id p = pot_id e /\ p_guild_id p = g.
Proof.
  unfold join_pots. rewrite in_flat_map. split.
  - intros (e' & He' & Hx). apply in_map_iff in Hx as (p & Hp & Hpin).
    injection Hp as -> <-. apply filter_In in Hpin as [Hpin Hid].
    apply Nat.eqb_eq in Hid. split; [exact He'|]. exists p. auto.
  - intros (He & p & Hp & Hid & Hg). exists e. split; [exact He|].
    apply in_map_iff. exists p. split; [now rewrite Hg|].
    apply filter_In. split; [exact Hp|]. now apply Nat.eqb_eq.
Qed.

Lemma get_unconfirmed_entries_iff db now x :
  In x (get_unconfirmed_entries db now) <->
  In (fst x) (pot_entries db) /\ status (fst x) = Unconfirmed /\ now - 3600 < created_at (fst x)
  /\ exists p, In p (pots db) /\ p_pot_id p = pot_id (fst x) /\ p_guild_id p = snd x.
Proof.
  destruct x as [e g]. unfold get_unconfirmed_entries. rewrite sort_by_In, join_pots_In_iff,
    filter_In, andb_true_iff, entry_status_eqb_eq, Z.ltb_lt. simpl. tauto.
Qed.

Lemma get_expired_entries_iff db now x :
  In x (get_expired_entries db now) <->
  In (fst x) (pot_entries db) /\ status (fst x) = Unconfirmed /\ created_at (fst x) <= now - 3600
  /\ exists p, In p (pots db) /\ p_pot_id p = pot_id (fst x) /\ p_guild_id p = snd x.
Proof.
  destruct x as [e g]. unfold get_expired_entries. rewrite sort_by_In, join_pots_In_iff,
    filter_In, andb_true_iff, entry_status_eqb_eq, Z.leb_le. simpl. tauto.
Qed.

Lemma confirm_step_unconfirmed resp send now st x :
  status (fst x) = Unconfirmed ->
  fst (confirm_step resp send now st x) =
  if request_accepted resp (fst x)
  then confirm_entry (fst st) now (entry_id (fst x)) else fst st.
Proof.
  destruct st as [db log], x as [e g]. simpl. intros Hs.
  unfold confirm_step, request_accepted. rewrite Hs. simpl.
  destruct (resp e) as [reqs|]; [|reflexivity].
  destruct (existsb _ reqs); reflexivity.
Qed.

Lemma fold_confirm_pots resp send tconf l st :
  (forall x, In x l -> status (fst x) = Unconfirmed) ->
  pots (fst (fold_left (fun st x => confirm_step resp send (tconf (fst x)) st x) l st))
  = pots (fst st).
Proof.
  revert st. induction l as [|x l IH]; intros st H; simpl; [reflexivity|].
  rewrite IH by (intros; apply H; now right).
  rewrite confirm_step_unconfirmed by (apply H; now left).
  destruct (request_accepted resp (fst x)); reflexivity.
Qed.

Lemma existsb_pot_iff ps e :
  existsb (fun p => Nat.eqb (p_pot_id p) (pot_id e)) ps = true <->
  exists p, In p ps /\ p_pot_id p = pot_id e.
Proof.
  rewrite existsb_exists. split; intros (p & Hp & H); exists p; split; auto;
    now apply Nat.eqb_eq.
Qed.

(** X1: one reconciliation tick, with its three clock readings ([t0] for
    the unconfirmed query, [tconf e] for the confirmation of [e], [t1] for
    the expired query, read after the awaited ledger calls), seen from a
    single unconfirmed entry [e] of a store whose entry ids are distinct.
    If no pot row has [e]'s [pot_id] (the JOIN drops it), the tick leaves
    it as it is.  Otherwise [e] is confirmed, with [confirmed_at = tconf e],
    exactly when it was less than an hour old at [t0] and its request id is
    among the accepted requests; if not, it is denied exactly when it is an
    hour old or more at [t1] and its deny call returns.  So an entry that
    was still fresh at [t0] and whose request was not accepted is denied in
    the same tick once [t1] is an hour past its creation.  Afterwards
    exactly one row carries [e]'s id. *)
Theorem tick_entry_outcome resp send deny_ok t0 tconf t1 db e :
  wf_db db -> In e (pot_entries db) -> status e = Unconfirmed ->
  rows_with_id (entry_id e)
    (pot_entries (fst (fst (process_stackcoin_requests_timed resp send deny_ok t0 tconf t1 db)))) =
  [if existsb (fun p => Nat.eqb (p_pot_id p) (pot_id e)) (pots db) then
     if (t0 - 3600 <? created_at e) && request_accepted resp e
     then confirm_where (entry_id e) (tconf e) e
     else if (created_at e <=? t1 - 3600) && deny_ok e
     then set_status_where (entry_id e) Denied e else e
   else e].
Proof.
  intros [Hnd _] He Hs. unfold process_stackcoin_requests_timed. cbv zeta.
  assert (Hkey1 : forall x, In x (get_unconfirmed_entries db t0) ->
                    entry_id (fst x) = entry_id e -> fst x = e).
  { intros x Hx Hid. apply get_unconfirmed_entries_iff in Hx as (Hx & _).
    exact (NoDup_map_same entry_id _ _ _ Hnd Hx He Hid). }
  assert (Hp1 : rows_with_id (entry_id e) (pot_entries (fst (fold_left
                  (fun st x => confirm_step resp send (tconf (fst x)) st x)
                  (get_unconfirmed_entries db t0) (db, [])))) =
      if existsb (fun x => Nat.eqb (entry_id (fst x)) (entry_id e)) (get_unconfirmed_entries db t0)
      then (if request_accepted resp e
            then map (confirm_where (entry_id e) (tconf e)) (rows_with_id (entry_id e) (pot_entries db))
            else rows_with_id (entry_id e) (pot_entries db))
      else rows_with_id (entry_id e) (pot_entries db)).
  { apply (fold_obs (fun st x => confirm_step resp send (tconf (fst x)) st x)
             (fun st => rows_with_id (entry_id e) (pot_entries (fst st)))
             (fun x => Nat.eqb (entry_id (fst x)) (entry_id e))
             (fun t => if request_accepted resp e
                       then map (confirm_where (entry_id e) (tconf e)) t else t)).
    - intros t. destruct (request_accepted resp e); [|reflexivity].
      rewrite map_map. apply map_ext. intros. apply confirm_where_idem.
    - intros s x Hx K. cbv beta in K |- *.
      rewrite confirm_step_unconfirmed by (apply get_unconfirmed_entries_iff in Hx; tauto).
      destruct (request_accepted resp (fst x)); [|reflexivity].
      unfold confirm_entry, with_entries. simpl. rewrite rows_confirm_where, K. reflexivity.
    - intros s x Hx K. cbv beta in K |- *. apply Nat.eqb_eq in K.
      rewrite confirm_step_unconfirmed by (apply get_unconfirmed_entries_iff in Hx; tauto).
      rewrite (Hkey1 x Hx K). destruct (request_accepted resp e); [|reflexivity].
      unfold confirm_entry, with_entries. simpl. rewrite rows_confirm_where, Nat.eqb_refl.
      reflexivity. }
  pose proof (fold_confirm_pots resp send tconf (get_unconfirmed_entries db t0) (db, []))
    as Hpots.
  rewrite (rows_unique _ _ Hnd He) in Hp1.
  destruct (fold_left (fun st x => confirm_step resp send (tconf (fst x)) st x)
              (get_unconfirmed_entries db t0) (db, []))
    as [db1 log1] eqn:E1.
  cbn [fst] in Hp1, Hpots.
  specialize (Hpots (fun x Hx => proj1 (proj2 (proj1 (get_unconfirmed_entries_iff db t0 x) Hx)))).
  assert (HR1 : forall r, In r (rows_with_id (entry_id e) (pot_entries db1)) ->
                  r = e \/ r = confirm_where (entry_id e) (tconf e) e).
  { intros r Hr. rewrite Hp1 in Hr.
    destruct (existsb _ _), (request_accepted resp e); simpl in Hr; intuition. }
  assert (Hkey2 : forall x, In x (get_expired_entries db1 t1) ->
                    entry_id (fst x) = entry_id e -> fst x = e).
  { intros x Hx Hid. apply get_expired_entries_iff in Hx as (Hx & Hst & _).
    destruct (HR1 (fst x)) as [H|Hc]; [now apply rows_with_id_In|exact H|].
    exfalso. rewrite Hc in Hst. unfold confirm_where in Hst.
    rewrite Nat.eqb_refl in Hst. discriminate. }
  assert (Hp2 : rows_with_id (entry_id e) (pot_entries (fst (fold_left (expire_step deny_ok)
                  (get_expired_entries db1 t1) (db1, log1)))) =
      if existsb (fun x => Nat.eqb (entry_id (fst x)) (entry_id e)) (get_expired_entries db1 t1)
      then (if deny_ok e
            then map (set_status_where (entry_id e) Denied) (rows_with_id (entry_id e) (pot_entries db1))
            else rows_with_id (entry_id e) (pot_entries db1))
      else rows_with_id (entry_id e) (pot_entries db1)).
  { apply (fold_obs (expire_step deny_ok)
             (fun st => rows_with_id (entry_id e) (pot_entries (fst st)))
             (fun x => Nat.eqb (entry_id (fst x)) (entry_id e))
             (fun t => if deny_ok e then map (set_status_where (entry_id e) Denied) t else t)).
    - intros t. destruct (deny_ok e); [|reflexivity].
      rewrite map_map. apply map_ext. intros. apply set_status_where_idem.
    - intros [dbs logs] x Hx K. cbv beta in K |- *. unfold expire_step. simpl.
      destruct (deny_ok (fst x)); [|reflexivity].
      unfold deny_entry, with_entries. simpl. rewrite rows_set_status_where, K. reflexivity.
    - intros [dbs logs] x Hx K. cbv beta in K |- *. apply Nat.eqb_eq in K.
      unfold expire_step. simpl. rewrite (Hkey2 x Hx K).
      destruct (deny_ok e); [|reflexivity].
      unfold deny_entry, with_entries. simpl. rewrite rows_set_status_where, Nat.eqb_refl.
      reflexivity. }
  destruct (fold_left (expire_step deny_ok) (get_expired_entries db1 t1) (db1, log1))
    as [db2 log2] eqn:E2.
  cbn [fst] in Hp2 |- *. rewrite Hp2. clear Hp2.
  destruct (existsb (fun p => Nat.eqb (p_pot_id p) (pot_id e)) (pots db)) eqn:Bp.
  - apply existsb_pot_iff in Bp as (p & Hp & Hpid).
    assert (K1 : existsb (fun x => Nat.eqb (entry_id (fst x)) (entry_id e))
                   (get_unconfirmed_entries db t0) = (t0 - 3600 <? created_at e)).
    { destruct (t0 - 3600 <? created_at e) eqn:Bf.
      - apply existsb_exists. exists (e, p_guild_id p). split; [|apply Nat.eqb_refl].
        apply get_unconfirmed_entries_iff. simpl. apply Z.ltb_lt in Bf.
        split; [exact He|split; [exact Hs|split; [exact Bf|]]]. exists p. auto.
      - apply not_true_iff_false. intros K.
        apply existsb_exists in K as (x & Hx & K). apply Nat.eqb_eq in K.
        pose proof (Hkey1 x Hx K) as Hxe.
        apply get_unconfirmed_entries_iff in Hx as (_ & _ & Hc & _).
        rewrite Hxe in Hc. apply Z.ltb_ge in Bf. lia. }
    rewrite K1 in Hp1.
    assert (K2 : existsb (fun x => Nat.eqb (entry_id (fst x)) (entry_id e))
                   (get_expired_entries db1 t1) =
                 negb ((t0 - 3600 <? created_at e) && request_accepted resp e)
                 && (created_at e <=? t1 - 3600)).
    { apply Bool.eq_iff_eq_true. rewrite existsb_exists, andb_true_iff, negb_true_iff, Z.leb_le.
      split.
      - intros (x & Hx & K). apply Nat.eqb_eq in K. pose proof (Hkey2 x Hx K) as Hxe.
        apply get_expired_entries_iff in Hx as (Hin & Hst & Hc & _). rewrite Hxe in Hin, Hc.
        split; [|exact Hc].
        apply not_true_iff_false. intros B. apply andb_true_iff in B as [B1 B2].
        assert (Hr : In e (rows_with_id (entry_id e) (pot_entries db1)))
          by (apply rows_with_id_In; auto).
        rewrite Hp1, B1, B2 in Hr. destruct Hr as [Hr|[]].
        apply (f_equal status) in Hr. unfold confirm_where in Hr.
        rewrite Nat.eqb_refl in Hr. simpl in Hr. congruence.
      - intros [B Hc]. exists (e, p_guild_id p). split; [|apply Nat.eqb_refl].
        apply get_expired_entries_iff. cbn [fst snd].
        split.
        { apply (rows_with_id_In (entry_id e)). rewrite Hp1.
          destruct (t0 - 3600 <? created_at e), (request_accepted resp e);
            simpl in B |- *; try discriminate; now left. }
        split; [exact Hs|split; [exact Hc|]]. exists p. rewrite Hpots. auto. }
    rewrite K2, Hp1.
    destruct (t0 - 3600 <? created_at e), (request_accepted resp e),
      (created_at e <=? t1 - 3600), (deny_ok e); reflexivity.
  - assert (Hnp : forall p, In p (pots db) -> p_pot_id p <> pot_id e).
    { intros p Hp Hid. assert (H : exists p, In p (pots db) /\ p_pot_id p = pot_id e) by eauto.
      apply existsb_pot_iff in H. congruence. }
    assert (K1 : existsb (fun x => Nat.eqb (entry_id (fst x)) (entry_id e))
                   (get_unconfirmed_entries db t0) = false).
    { apply not_true_iff_false. intros K.
      apply existsb_exists in K as (x & Hx & K). apply Nat.eqb_eq in K.
      pose proof (Hkey1 x Hx K) as Hxe.
      apply get_unconfirmed_entries_iff in Hx as (_ & _ & _ & p & Hp & Hid & _).
      rewrite Hxe in Hid. exact (Hnp p Hp Hid). }
    assert (K2 : existsb (fun x => Nat.eqb (entry_id (fst x)) (entry_id e))
                   (get_expired_entries db1 t1) = false).
    { apply not_true_iff_false. intros K.
      apply existsb_exists in K as (x & Hx & K). apply Nat.eqb_eq in K.
      pose proof (Hkey2 x Hx K) as Hxe.
      apply get_expired_entries_iff in Hx as (_ & _ & _ & p & Hp & Hid & _).
      rewrite Hxe in Hid. rewrite Hpots in Hp. exact (Hnp p Hp Hid). }
    rewrite K2, Hp1, K1. reflexivity.
Qed.


(** ** The two reconciliation queries *)



(** ** Store-level invariants *)

Section Preservation.
Variable P : DB -> Prop.
Hypothesis P_confirm : forall db now i, P db -> P (confirm_entry db now i).
Hypothesis P_deny : forall db i, P db -> P (deny_entry db i).
Hypothesis P_win : forall db now g w a, P db -> P (win_pot db now g w a).

Lemma send_then_win_pot_P db now send g w a ann :
  P db -> P (fst (fst (send_then_win_pot db now send g w a ann))).
Proof. intros H. unfold send_then_win_pot. destruct (send w a); simpl; auto. Qed.

Lemma confirm_step_P resp send now st x : P (fst st) -> P (fst (confirm_step resp send now st x)).
Proof.
  destruct st as [db log], x as [e pg]. simpl. intros H. unfold confirm_step.
  destruct (resp e) as [reqs|]; [|exact H].
  destruct (existsb _ reqs); [|exact H].
  destruct (entry_status_eqb (status e) InstantWin); [|simpl; now apply P_confirm].
  destruct (get_pot_status _ pg) as [ps|]; [|simpl; now apply P_confirm].
  pose proof (send_then_win_pot_P (confirm_entry db now (entry_id e)) now send pg (discord_id e)
                (ps_total_amount ps) (InstantWinAnn (discord_id e) (ps_total_amount ps))
                (P_confirm _ _ _ H)) as Hs.
  destruct (send_then_win_pot _ _ _ _ _ _ _) as [[db2 ev] ok]. exact Hs.
Qed.

Lemma expire_step_P deny_ok st x : P (fst st) -> P (fst (expire_step deny_ok st x)).
Proof.
  destruct st as [db log]. simpl. intros H. unfold expire_step.
  destruct (deny_ok (fst x)); simpl; auto.
Qed.

Lemma fold_step_P {X} (step : DB * list event -> X -> DB * list event) l st :
  (forall st x, P (fst st) -> P (fst (step st x))) ->
  P (fst st) -> P (fst (fold_left step l st)).
Proof.
  intros Hs. revert st. induction l as [|x l IH]; intros st H; simpl; [exact H|].
  apply IH. now apply Hs.
Qed.

Lemma process_P resp send deny_ok t0 tconf t1 db :
  P db -> P (fst (fst (process_stackcoin_requests_timed resp send deny_ok t0 tconf t1 db))).
Proof.
  intros H. unfold process_stackcoin_requests_timed.
  pose proof (fold_step_P _ (get_unconfirmed_entries db t0) (db, [])
                (fun st x => confirm_step_P resp send (tconf (fst x)) st x) H) as H1.
  destruct (fold_left _ _ _) as [db1 log1]. simpl in H1.
  pose proof (fold_step_P _ (get_expired_entries db1 t1) (db1, log1) (expire_step_P deny_ok) H1)
    as H2.
  destruct (fold_left _ _ _) as [db2 log2]. exact H2.
Qed.

Lemma draw_guild_P coin pick send now db g db' ev :
  P db -> draw_guild coin pick send now db g = Some (db', ev) -> P db'.
Proof.
  intros H. unfold draw_guild.
  destruct (get_pot_status db g) as [st|]; [|congruence].
  destruct (Nat.eqb (participant_count st) 0); [congruence|].
  destruct (random_below (coin g) (4 # 10)); [|congruence].
  destruct (get_active_pot_participants db g) as [|p ps]; [congruence|].
  destruct (random_choice _ _) as [w|]; [|congruence].
  unfold send_then_win_pot. destruct (send _ _); intros E; injection E as <- _; auto.
Qed.

Lemma daily_pot_draw_P coin pick send now db :
  P db -> P (fst (daily_pot_draw coin pick send now db)).
Proof.
  unfold daily_pot_draw. generalize (get_all_active_guilds db) (@nil event).
  intros gs. revert db. induction gs as [|g gs IH]; intros db log H; simpl; [exact H|].
  destruct (draw_guild coin pick send now db g) as [[db' ev]|] eqn:E; [|exact H].
  apply IH. eapply draw_guild_P; eauto.
Qed.

Lemma force_end_pot_P db now pick send g : P db -> P (fst (force_end_pot db now pick send g)).
Proof.
  intros H. unfold force_end_pot.
  destruct (get_pot_status db g) as [st|]; [|exact H].
  destruct (Nat.eqb (participant_count st) 0); [exact H|].
  destruct (get_active_pot_participants db g) as [|p ps]; [exact H|].
  destruct (random_choice _ _) as [w|]; [|exact H].
  unfold send_then_win_pot. destruct (send _ _); simpl; auto.
Qed.

Hypothesis P_enter : forall db now g d ur cr coin, P db -> P (fst (enter_pot db now g d ur cr coin)).

Lemma prog_step_P db db' : prog_step db db' -> P db -> P db'.
Proof.
  destruct 1; intros H.
  - now apply P_enter.
  - now apply process_P.
  - now apply daily_pot_draw_P.
  - now apply force_end_pot_P.
Qed.

Lemma steps_P db db' : clos_refl_trans DB prog_step db db' -> P db -> P db'.
Proof. induction 1; eauto using prog_step_P. Qed.
End Preservation.

Lemma create_pot_entry_tables db now pid d g rid iw :
  users (fst (create_pot_entry db now pid d g rid iw)) = users db /\
  pots (fst (create_pot_entry db now pid d g rid iw)) = pots db /\
  next_pot_id (fst (create_pot_entry db now pid d g rid iw)) = next_pot_id db.
Proof. unfold create_pot_entry. simpl. auto. Qed.

Lemma get_or_create_user_tables db now d g :
  pots (get_or_create_user db now d g) = pots db /\
  pot_entries (get_or_create_user db now d g) = pot_entries db /\
  next_pot_id (get_or_create_user db now d g) = next_pot_id db.
Proof. unfold get_or_create_user. destruct (existsb _ _); simpl; auto. Qed.

Lemma admission_pot_users db now g d :
  users (fst (admission_pot db now g d)) = users (get_or_create_user db now d g).
Proof. unfold admission_pot. destruct (get_current_pot _ g); reflexivity. Qed.

(** The [users] and [pots] tables after [EnterPot.invoke]: untouched, or
    those of the store after the user row and the pot are ensured. *)
Lemma enter_pot_tables db now g d ur cr coin :
  (users (fst (enter_pot db now g d ur cr coin)) = users db /\
   pots (fst (enter_pot db now g d ur cr coin)) = pots db) \/
  (users (fst (enter_pot db now g d ur cr coin)) = users (fst (admission_pot db now g d)) /\
   pots (fst (enter_pot db now g d ur cr coin)) = pots (fst (admission_pot db now g d))).
Proof.
  destruct ur as [|[|user us]]; [left; auto|left; auto|right].
  rewrite enter_pot_unfold. destruct (admission_pot db now g d) as [db2 pid]. simpl.
  destruct (negb _); [auto|]. destruct (su_id user); [|auto]. destruct cr as [rid|]; [|auto].
  cbv zeta. pose proof (create_pot_entry_tables db2 now pid d g rid (random_below coin (5 # 100)))
    as (Hu & Hp & _).
  destruct (create_pot_entry db2 now pid d g rid (random_below coin (5 # 100))) as [db3 eid].
  simpl in Hu, Hp. destruct (random_below coin (5 # 100)); simpl; auto.
Qed.

(** *** At most one current pot per guild *)

Lemma latest_pot_some l p : fold_left latest_pot l (Some p) <> None.
Proof.
  revert p. induction l as [|a l IH]; intros p; simpl; [discriminate|].
  destruct (p_created_at p <? p_created_at a); apply IH.
Qed.

Lemma get_current_pot_None db g :
  get_current_pot db g = None <-> filter (is_current_pot g) (pots db) = [].
Proof.
  unfold get_current_pot. destruct (filter (is_current_pot g) (pots db)) as [|p l]; simpl.
  - tauto.
  - split; [intros H; exfalso; exact (latest_pot_some l p H)|discriminate].
Qed.

Lemma latest_pot_In l acc q : fold_left latest_pot l acc = Some q -> acc = Some q \/ In q l.
Proof.
  revert acc. induction l as [|a l IH]; intros acc H; simpl in *; [now left|].
  destruct (IH _ H) as [Ha|Ha]; [|tauto].
  destruct acc as [b|]; simpl in Ha.
  - destruct (p_created_at b <? p_created_at a); [injection Ha as ->; tauto|now left].
  - injection Ha as ->. tauto.
Qed.

Lemma get_current_pot_In db g pot :
  get_current_pot db g = Some pot -> In pot (pots db) /\ is_current_pot g pot = true.
Proof.
  unfold get_current_pot. intros H. apply latest_pot_In in H as [H|H]; [discriminate|].
  now apply filter_In in H.
Qed.

Lemma count_filter_map_le (f : PotRow -> PotRow) (P : PotRow -> bool) l :
  (forall p, P (f p) = true -> P p = true) ->
  (List.length (filter P (map f l)) <= List.length (filter P l))%nat.
Proof.
  intros H. induction l as [|a l IH]; simpl; [lia|].
  destruct (P (f a)) eqn:E1; [rewrite (H a E1); simpl; lia|].
  destruct (P a); simpl; lia.
Qed.

Lemma win_pot_closed_row g g' w amt now p :
  is_current_pot g p = true ->
  is_current_pot g' (mkPot (p_pot_id p) (p_guild_id p) (Some w) amt (p_created_at p) (Some now) false)
  = false.
Proof. intros _. unfold is_current_pot. simpl. now rewrite !andb_false_r. Qed.

Lemma win_pot_count db now g w amt g' :
  (current_pot_count (win_pot db now g w amt) g' <= current_pot_count db g')%nat.
Proof.
  unfold current_pot_count, win_pot. simpl. apply count_filter_map_le.
  intros p. destruct (is_current_pot g p) eqn:E; [|auto].
  rewrite (win_pot_closed_row g g' w amt now p E). discriminate.
Qed.

Lemma admission_pot_count db now g d :
  (forall g', (current_pot_count db g' <= 1)%nat) ->
  forall g', (current_pot_count (fst (admission_pot db now g d)) g' <= 1)%nat.
Proof.
  intros H g'. unfold admission_pot.
  pose proof (get_or_create_user_tables db now d g) as (Hp & _).
  assert (H1 : forall g', (current_pot_count (get_or_create_user db now d g) g' <= 1)%nat)
    by (intros; unfold current_pot_count; rewrite Hp; apply H).
  destruct (get_current_pot (get_or_create_user db now d g) g) eqn:E; [apply H1|].
  apply get_current_pot_None in E.
  specialize (H1 g'). unfold current_pot_count in *. simpl.
  rewrite filter_app, length_app. simpl.
  assert (Hnew : forall pid, is_current_pot g' (mkPot pid g None 0 now None true) = String.eqb g g')
    by (intros; unfold is_current_pot; simpl; now rewrite !andb_true_r).
  rewrite Hnew. destruct (String.eqb_spec g g') as [<-|Hne].
  - rewrite E. simpl. lia.
  - simpl. lia.
Qed.

(** X3: in every store the program can reach from a fresh database, no
    guild has two pots that are active and unwon at the same time, so
    [get_current_pot] returns the guild's only current pot (its [ORDER BY
    created_at DESC LIMIT 1] never has to choose). *)
Theorem at_most_one_current_pot (db : DB) :
  clos_refl_trans DB prog_step empty_db db ->
  forall g, (current_pot_count db g <= 1)%nat /\
            filter (is_current_pot g) (pots db)
            = match get_current_pot db g with Some p => [p] | None => [] end.
Proof.
  intros Hr.
  assert (Hinv : forall g, (current_pot_count db g <= 1)%nat).
  { apply (steps_P (fun db => forall g, (current_pot_count db g <= 1)%nat)) with (db := empty_db).
    - intros db0 now i H g. apply H.
    - intros db0 i H g. apply H.
    - intros db0 now g w a H g'. eapply Nat.le_trans; [apply win_pot_count|apply H].
    - intros db0 now g d ur cr coin H g'.
      destruct (enter_pot_tables db0 now g d ur cr coin) as [[_ Hp]|[_ Hp]];
        unfold current_pot_count; rewrite Hp; [apply H|apply admission_pot_count, H].
    - exact Hr.
    - intros g. simpl. unfold current_pot_count. simpl. lia. }
  intros g. split; [apply Hinv|]. specialize (Hinv g). unfold current_pot_count in Hinv.
  destruct (filter (is_current_pot g) (pots db)) as [|p [|q l]] eqn:F.
  - apply get_current_pot_None in F. now rewrite F.
  - unfold get_current_pot. rewrite F. reflexivity.
  - simpl in Hinv. lia.
Qed.

(** *** Users *)

Lemma get_or_create_user_cases db now d g :
  (existsb (fun u => String.eqb (u_discord_id u) d && String.eqb (u_guild_id u) g) (users db) = true
   /\ get_or_create_user db now d g = db) \/
  (existsb (fun u => String.eqb (u_discord_id u) d && String.eqb (u_guild_id u) g) (users db) = false
   /\ users (get_or_create_user db now d g) = users db ++ [mkUser d g 0 0 now]).
Proof.
  unfold get_or_create_user.
  destruct (existsb _ (users db)) eqn:E; [left|right]; auto.
Qed.

Lemma user_key_exists db d g :
  existsb (fun u => String.eqb (u_discord_id u) d && String.eqb (u_guild_id u) g) (users db) = true
  <-> In (d, g) (user_keys db).
Proof.
  unfold user_keys. rewrite existsb_exists, in_map_iff. split.
  - intros (u & Hu & H). apply andb_true_iff in H as [H1 H2].
    apply String.eqb_eq in H1, H2. exists u. subst. auto.
  - intros (u & Hk & Hu). injection Hk as <- <-. exists u.
    rewrite !String.eqb_refl. auto.
Qed.

(** X4: [get_or_create_user] ([INSERT OR IGNORE]) never changes or removes
    an existing user row (so a user's wins and winnings survive it); after
    it a row for [(discord_id, guild_id)] exists; it keeps the key
    [(discord_id, guild_id)] unique; a second call changes nothing; and it
    touches no other table. *)
Theorem get_or_create_user_spec (db : DB) (now now' : Z) (d g : string) :
  (exists l, users (get_or_create_user db now d g) = users db ++ l) /\
  (exists u, In u (users (get_or_create_user db now d g)) /\ u_discord_id u = d /\ u_guild_id u = g) /\
  (NoDup (user_keys db) -> NoDup (user_keys (get_or_create_user db now d g))) /\
  get_or_create_user (get_or_create_user db now d g) now' d g = get_or_create_user db now d g /\
  pots (get_or_create_user db now d g) = pots db /\
  pot_entries (get_or_create_user db now d g) = pot_entries db.
Proof.
  pose proof (get_or_create_user_tables db now d g) as (Hp & He & _).
  destruct (get_or_create_user_cases db now d g) as [(E & Hdb)|(E & Hu)].
  - rewrite Hdb. split; [exists []; now rewrite app_nil_r|].
    split; [|split; [auto|split; [unfold get_or_create_user; now rewrite E|auto]]].
    apply existsb_exists in E as (u & Hu & H). apply andb_true_iff in H as [H1 H2].
    apply String.eqb_eq in H1, H2. eauto.
  - split; [eauto|]. split.
    + exists (mkUser d g 0 0 now). rewrite Hu. split; [apply in_or_app; right; now left|auto].
    + split; [|split; [|auto]].
      * intros Hnd. unfold user_keys in *. rewrite Hu, map_app. simpl.
        apply NoDup_app; [exact Hnd|constructor; [intros []|constructor]|].
        intros k Hk [<-|[]]. assert (Hin : In (d, g) (user_keys db)) by exact Hk.
        apply user_key_exists in Hin. congruence.
      * unfold get_or_create_user at 1.
        replace (existsb _ (users (get_or_create_user db now d g))) with true; [reflexivity|].
        symmetry. apply user_key_exists. unfold user_keys. rewrite Hu, map_app.
        apply in_or_app. right. now left.
Qed.

Lemma win_pot_keys db now g w a : user_keys (win_pot db now g w a) = user_keys db.
Proof.
  unfold user_keys, win_pot. simpl. rewrite map_map. apply map_ext. intros u.
  destruct (_ && _); reflexivity.
Qed.

(** X5: in every store the program can reach from a fresh database, the
    [users] table has at most one row per [(discord_id, guild_id)]: the
    PRIMARY KEY of the schema is respected by the program's own writes, so
    [win_pot]'s [UPDATE users ... WHERE discord_id = ? AND guild_id = ?]
    credits at most one row. *)
Theorem user_keys_unique (db : DB) :
  clos_refl_trans DB prog_step empty_db db -> NoDup (user_keys db).
Proof.
  intros Hr. apply (steps_P (fun db => NoDup (user_keys db))) with (db := empty_db).
  - intros. exact H.
  - intros. exact H.
  - intros db0 now g w a H. now rewrite win_pot_keys.
  - intros db0 now g d ur cr coin H.
    destruct (enter_pot_tables db0 now g d ur cr coin) as [[Hu _]|[Hu _]];
      unfold user_keys; rewrite Hu; [exact H|].
    rewrite admission_pot_users.
    destruct (get_or_create_user_cases db0 now d g) as [(E & ->)|(E & Hu')]; [exact H|].
    rewrite Hu', map_app. apply NoDup_app; [exact H|constructor; [intros []|constructor]|].
    intros k Hk [<-|[]]. assert (Hin : In (d, g) (user_keys db0)) by exact Hk.
    apply user_key_exists in Hin. congruence.
  - exact Hr.
  - constructor.
Qed.

(** *** Active guilds *)

Lemma existsb_string_In x l : existsb (String.eqb x) l = true <-> In x l.
Proof.
  rewrite existsb_exists. split.
  - intros (y & Hy & E). apply String.eqb_eq in E. now subst.
  - intros H. exists x. split; [exact H|apply String.eqb_refl].
Qed.

Lemma distinct_strings_In seen l x :
  In x (distinct_strings seen l) <-> In x l /\ ~ In x seen.
Proof.
  revert seen. induction l as [|y l IH]; intros seen; simpl; [tauto|].
  destruct (existsb (String.eqb y) seen) eqn:E.
  - apply existsb_string_In in E. rewrite IH. split; [tauto|].
    intros [[<-|H] Hn]; [contradiction|tauto].
  - assert (Hy : ~ In y seen) by (intros H; apply existsb_string_In in H; congruence).
    simpl. rewrite IH. simpl. split.
    + intros [<-|[H1 H2]]; tauto.
    + intros [[<-|H1] H2]; [now left|].
      destruct (String.string_dec y x) as [<-|Hne]; [now left|right; tauto].
Qed.

Lemma distinct_strings_NoDup seen l : NoDup (distinct_strings seen l).
Proof.
  revert seen. induction l as [|y l IH]; intros seen; simpl; [constructor|].
  destruct (existsb (String.eqb y) seen); [apply IH|].
  constructor; [|apply IH]. rewrite distinct_strings_In. simpl. tauto.
Qed.

(** X6: [get_all_active_guilds] lists each guild at most once, and lists
    exactly the guilds having a pot row with [is_active] true; the daily
    draw therefore visits each such guild once. *)
Theorem get_all_active_guilds_spec (db : DB) :
  NoDup (get_all_active_guilds db) /\
  (forall g, In g (get_all_active_guilds db) <->
     exists p, In p (pots db) /\ p_is_active p = true /\ p_guild_id p = g).
Proof.
  unfold get_all_active_guilds. split; [apply distinct_strings_NoDup|].
  intros g. rewrite distinct_strings_In, in_map_iff. simpl. split.
  - intros [(p & <- & Hp) _]. apply filter_In in Hp. exists p. tauto.
  - intros (p & Hp & Ha & <-). split; [|tauto]. exists p. split; [reflexivity|].
    now apply filter_In.
Qed.


(** *** Closing a pot and opening the next one *)

Lemma win_pot_filter_self db now g w amt :
  filter (is_current_pot g) (pots (win_pot db now g w amt)) = [].
Proof.
  apply filter_all_false. intros x Hx. unfold win_pot in Hx. simpl in Hx.
  apply in_map_iff in Hx as (p & <- & _).
  destruct (is_current_pot g p) eqn:E; [now apply (win_pot_closed_row g g)|exact E].
Qed.

Lemma win_pot_filter_other db now g w amt g' : g' <> g ->
  filter (is_current_pot g') (pots (win_pot db now g w amt)) = filter (is_current_pot g') (pots db).
Proof.
  intros Hne. unfold win_pot. simpl. induction (pots db) as [|p ps IH]; simpl; [reflexivity|].
  destruct (is_current_pot g p) eqn:E.
  - rewrite (win_pot_closed_row g g' w amt now p E).
    assert (H : is_current_pot g' p = false).
    { unfold is_current_pot in *. apply andb_true_iff in E as [E _].
      apply andb_true_iff in E as [E _]. apply String.eqb_eq in E. rewrite E.
      rewrite (proj2 (String.eqb_neq g g')) by congruence. reflexivity. }
    rewrite H. exact IH.
  - destruct (is_current_pot g' p); [f_equal|]; exact IH.
Qed.

Lemma get_pot_status_no_pot db g : get_current_pot db g = None -> get_pot_status db g = None.
Proof. unfold get_pot_status. now intros ->. Qed.

(** X7: [win_pot] ends the guild's pot: afterwards the guild has no
    current pot (so [get_pot_status] reports none and [/pot-status] says
    there is no active pot), each pot that was current is kept as a closed
    row recording the winner, the amount and [won_at]; the current pots
    and statuses of every other guild are unchanged; and the next
    [/enter-pot] in the guild opens a new pot whose id is the next
    AUTOINCREMENT value. *)
Theorem win_pot_closes_pot (db : DB) (now now' : Z) (g w d : string) (amt : Z) :
  get_current_pot (win_pot db now g w amt) g = None /\
  get_pot_status (win_pot db now g w amt) g = None /\
  (forall p, In p (pots db) -> is_current_pot g p = true ->
     In (mkPot (p_pot_id p) g (Some w) amt (p_created_at p) (Some now) false)
        (pots (win_pot db now g w amt))) /\
  (forall g', g' <> g -> get_current_pot (win_pot db now g w amt) g' = get_current_pot db g' /\
                         get_pot_status (win_pot db now g w amt) g' = get_pot_status db g') /\
  snd (admission_pot (win_pot db now g w amt) now' g d) = next_pot_id db.
Proof.
  assert (Hnone : get_current_pot (win_pot db now g w amt) g = None)
    by (apply get_current_pot_None, win_pot_filter_self).
  split; [exact Hnone|]. split; [now apply get_pot_status_no_pot|]. split; [|split].
  - intros p Hp E. unfold win_pot. simpl. apply in_map_iff. exists p. rewrite E.
    split; [|exact Hp]. unfold is_current_pot in E. apply andb_true_iff in E as [E _].
    apply andb_true_iff in E as [E _]. apply String.eqb_eq in E. now rewrite E.
  - intros g' Hne.
    assert (Hc : get_current_pot (win_pot db now g w amt) g' = get_current_pot db g')
      by (unfold get_current_pot; now rewrite win_pot_filter_other).
    split; [exact Hc|]. unfold get_pot_status. rewrite Hc. reflexivity.
  - unfold admission_pot.
    pose proof (get_or_create_user_tables (win_pot db now g w amt) now' d g) as (Hp & _ & Hn).
    assert (H : get_current_pot (get_or_create_user (win_pot db now g w amt) now' d g) g = None)
      by (apply get_current_pot_None; rewrite Hp; apply win_pot_filter_self).
    rewrite H. simpl. rewrite Hn. reflexivity.
Qed.

Lemma create_new_pot_current_row db now g :
  get_current_pot db g = None ->
  get_current_pot (fst (create_new_pot db now g)) g = Some (mkPot (next_pot_id db) g None 0 now None true).
Proof.
  intros H. apply get_current_pot_None in H. unfold get_current_pot. simpl.
  rewrite filter_app, H. simpl. unfold is_current_pot at 1. simpl.
  rewrite String.eqb_refl. reflexivity.
Qed.

Lemma create_new_pot_other db now g g' : g' <> g ->
  get_current_pot (fst (create_new_pot db now g)) g' = get_current_pot db g'.
Proof.
  intros Hne. unfold get_current_pot. simpl. rewrite filter_app. simpl.
  unfold is_current_pot at 2. simpl. rewrite (proj2 (String.eqb_neq g g')) by congruence.
  simpl. now rewrite app_nil_r.
Qed.

(** X8: when guild [g] has no current pot, [create_new_pot] returns the
    next AUTOINCREMENT id, and the new row (active, no winner, amount 0,
    created now) becomes the guild's current pot; the current pots of the
    other guilds are unchanged; and when no entry refers to the new id, the
    guild's status is an empty pot: total 0, no participants. *)
Theorem create_new_pot_current (db : DB) (now : Z) (g : string) :
  get_current_pot db g = None ->
  snd (create_new_pot db now g) = next_pot_id db /\
  get_current_pot (fst (create_new_pot db now g)) g
  = Some (mkPot (next_pot_id db) g None 0 now None true) /\
  (forall g', g' <> g -> get_current_pot (fst (create_new_pot db now g)) g' = get_current_pot db g') /\
  ((forall e, In e (pot_entries db) -> pot_id e <> next_pot_id db) ->
   get_pot_status (fst (create_new_pot db now g)) g = Some (mkPotStatus (next_pot_id db) 0 0 [] now)).
Proof.
  intros H. split; [reflexivity|]. split; [now apply create_new_pot_current_row|].
  split; [intros; now apply create_new_pot_other|].
  intros He. unfold get_pot_status. rewrite (create_new_pot_current_row db now g H). simpl.
  rewrite filter_all_false; [reflexivity|]. intros e Hin.
  unfold confirmed_of_pot. rewrite (proj2 (Nat.eqb_neq _ _) (He e Hin)). reflexivity.
Qed.

(** *** Storing an entry *)

Lemma wf_set_status_new db st :
  wf_db db -> map (set_status_where (next_entry_id db) st) (pot_entries db) = pot_entries db.
Proof.
  intros [_ Hlt]. apply map_id_on. intros e He. unfold set_status_where.
  destruct (Nat.eqb_spec (entry_id e) (next_entry_id db)); [|reflexivity].
  pose proof (proj1 (Forall_forall _ _) Hlt e He) as Hle. simpl in Hle. lia.
Qed.

Lemma create_pot_entry_entries db now pid d g rid iw :
  wf_db db ->
  pot_entries (fst (create_pot_entry db now pid d g rid iw)) =
  pot_entries db ++ [mkEntry (next_entry_id db) pid d g 5 (if iw then InstantWin else Unconfirmed)
                       rid now None].
Proof.
  intros Hwf. unfold create_pot_entry. simpl. destruct iw; [|reflexivity].
  rewrite map_app, (wf_set_status_new db InstantWin Hwf). simpl.
  unfold set_status_where. simpl. now rewrite Nat.eqb_refl.
Qed.

Lemma get_pot_status_ext db db' g :
  pots db = pots db' ->
  (forall pid, filter (confirmed_of_pot pid) (pot_entries db)
               = filter (confirmed_of_pot pid) (pot_entries db')) ->
  get_pot_status db g = get_pot_status db' g.
Proof.
  intros Hp Hf. unfold get_pot_status, get_current_pot. rewrite Hp.
  destruct (fold_left _ _ _); [now rewrite Hf|reflexivity].
Qed.

Lemma create_pot_entry_status db now pid d g rid iw g' :
  wf_db db ->
  get_pot_status (fst (create_pot_entry db now pid d g rid iw)) g' = get_pot_status db g'.
Proof.
  intros Hwf. apply get_pot_status_ext; [reflexivity|]. intros p.
  rewrite create_pot_entry_entries by exact Hwf. rewrite filter_app.
  rewrite (filter_all_false _ [_]); [apply app_nil_r|].
  intros x [<-|[]]. unfold confirmed_of_pot. simpl. destruct iw; apply andb_false_r.
Qed.

(** X9: in a store whose entry ids are below the AUTOINCREMENT counter,
    [create_pot_entry] appends exactly one row (amount 5, the given pot,
    user, guild and request id, status instant_win or unconfirmed, created
    now), returns its id, which no earlier row carries, and changes the
    [get_pot_status] of no guild: neither a pending nor an instant-win
    entry is counted. *)
Theorem create_pot_entry_spec (db : DB) (now : Z) (pid : nat) (d g rid : string) (iw : bool) :
  wf_db db ->
  pot_entries (fst (create_pot_entry db now pid d g rid iw)) =
  pot_entries db ++ [mkEntry (snd (create_pot_entry db now pid d g rid iw)) pid d g 5
                       (if iw then InstantWin else Unconfirmed) rid now None] /\
  ~ In (snd (create_pot_entry db now pid d g rid iw)) (map entry_id (pot_entries db)) /\
  (forall g', get_pot_status (fst (create_pot_entry db now pid d g rid iw)) g'
              = get_pot_status db g').
Proof.
  intros Hwf. split; [now apply create_pot_entry_entries|]. split.
  - simpl. intros Hin. apply in_map_iff in Hin as (e & Hid & He).
    destruct Hwf as [_ Hlt]. pose proof (proj1 (Forall_forall _ _) Hlt e He) as Hle.
    simpl in Hle. lia.
  - intros g'. now apply create_pot_entry_status.
Qed.

(** *** A successful [/enter-pot] *)

Lemma get_or_create_user_row db now d g :
  exists u, In u (users (get_or_create_user db now d g)) /\ u_discord_id u = d /\ u_guild_id u = g.
Proof.
  destruct (get_or_create_user_cases db now d g) as [(E & ->)|(E & Hu)].
  - apply existsb_exists in E as (u & Hu & H). apply andb_true_iff in H as [H1 H2].
    apply String.eqb_eq in H1, H2. eauto.
  - exists (mkUser d g 0 0 now). rewrite Hu. split; [apply in_or_app; right; now left|auto].
Qed.

Lemma admission_pot_current db now g d :
  exists pot, get_current_pot (fst (admission_pot db now g d)) g = Some pot /\
              p_pot_id pot = snd (admission_pot db now g d).
Proof.
  unfold admission_pot.
  destruct (get_current_pot (get_or_create_user db now d g) g) as [p|] eqn:E.
  - exists p. auto.
  - eexists. split; [now apply create_new_pot_current_row|reflexivity].
Qed.

Lemma get_pot_status_total db g pot :
  get_current_pot db g = Some pot ->
  exists st, get_pot_status db g = Some st /\
    ps_total_amount st = sum_amounts (filter (confirmed_of_pot (p_pot_id pot)) (pot_entries db)).
Proof. intros H. unfold get_pot_status. rewrite H. eexists. split; reflexivity. Qed.

(** X10: a [/enter-pot] whose users lookup finds a user with an id, that
    passes the cooldown check, and whose debit request is created, on a
    store whose entry ids are below the counter: makes exactly one ledger
    call, a 5-STK request from that user id, stores exactly one new row
    (the guild's current pot, or a pot it has just opened, amount 5, that
    request id, instant_win iff [random.random() < 0.05]), leaves that pot
    current and the user row present; the instant-win reply announces the
    pot's confirmed total plus 5; and a non-instant entry blocks the user
    from entering that pot again for the next 6 hours. *)
Theorem enter_pot_success (db : DB) (now : Z) (g d : string) (user : StkUser)
    (us : list StkUser) (uid : Z) (rid : string) (coin : Q) :
  wf_db db -> su_id user = Some uid ->
  can_user_enter_pot (fst (admission_pot db now g d)) now d g (snd (admission_pot db now g d))
  = true ->
  pot_entries (fst (enter_pot db now g d (UsersOk (user :: us)) (Some rid) coin)) =
    pot_entries db ++ [mkEntry (next_entry_id db) (snd (admission_pot db now g d)) d g 5
                         (if random_below coin (5 # 100) then InstantWin else Unconfirmed)
                         rid now None] /\
  (exists pot, get_current_pot (fst (enter_pot db now g d (UsersOk (user :: us)) (Some rid) coin)) g
               = Some pot /\ p_pot_id pot = snd (admission_pot db now g d)) /\
  (exists u, In u (users (fst (enter_pot db now g d (UsersOk (user :: us)) (Some rid) coin)))
             /\ u_discord_id u = d /\ u_guild_id u = g) /\
  snd (enter_pot db now g d (UsersOk (user :: us)) (Some rid) coin) =
    [CreateRequest uid 5;
     Respond (if random_below coin (5 # 100)
              then ReplyInstantWin (sum_amounts (filter (confirmed_of_pot (snd (admission_pot db now g d)))
                                                  (pot_entries db)) + 5)
              else ReplyEntered)] /\
  (random_below coin (5 # 100) = false -> forall t, t < now + cooldown_window ->
   can_user_enter_pot (fst (enter_pot db now g d (UsersOk (user :: us)) (Some rid) coin)) t d g
     (snd (admission_pot db now g d)) = false).
Proof.
  intros Hwf Hid Hc. rewrite enter_pot_unfold.
  pose proof (admission_pot_entries db now g d) as He.
  pose proof (admission_pot_next db now g d) as Hn.
  pose proof (admission_pot_current db now g d) as (pot & Hpot & Hpid).
  pose proof (admission_pot_users db now g d) as Hu.
  pose proof (get_or_create_user_row db now d g) as Hrow.
  destruct (admission_pot db now g d) as [db2 pid] eqn:Ea. simpl in He, Hn, Hpot, Hpid, Hu, Hc.
  cbv beta iota zeta delta [fst snd]. rewrite Hc, Hid. cbv beta iota zeta delta [negb].
  assert (Hwf2 : wf_db db2) by (unfold wf_db; rewrite He, Hn; exact Hwf).
  pose proof (get_pot_status_total db2 g pot Hpot) as (st & Hst & Htot).
  pose proof (create_pot_entry_entries db2 now pid d g rid (random_below coin (5 # 100)) Hwf2) as Hce.
  pose proof (create_pot_entry_tables db2 now pid d g rid (random_below coin (5 # 100)))
    as (Hcu & Hcp & _).
  pose proof (create_pot_entry_status db2 now pid d g rid (random_below coin (5 # 100)) g Hwf2)
    as Hcs.
  destruct (create_pot_entry db2 now pid d g rid (random_below coin (5 # 100))) as [db3 eid].
  simpl in Hce, Hcu, Hcp, Hcs.
  assert (Hcur : get_current_pot db3 g = Some pot)
    by (unfold get_current_pot in *; now rewrite Hcp).
  assert (Hus : exists u, In u (users db3) /\ u_discord_id u = d /\ u_guild_id u = g)
    by (now rewrite Hcu, Hu).
  assert (Hent : pot_entries db3 = pot_entries db ++
            [mkEntry (next_entry_id db) pid d g 5
               (if random_below coin (5 # 100) then InstantWin else Unconfirmed) rid now None])
    by (now rewrite Hce, He, Hn).
  assert (Hblock : random_below coin (5 # 100) = false -> forall t, t < now + cooldown_window ->
                     can_user_enter_pot db3 t d g pid = false).
  { intros Hf t Ht. unfold can_user_enter_pot. rewrite Hent, Hf, filter_app, length_app.
    assert (Hb : blocks_entry t d g pid (mkEntry (next_entry_id db) pid d g 5 Unconfirmed rid now None)
                 = true) by (apply blocks_entry_true; simpl; repeat split; auto; lia).
    simpl. rewrite Hb. simpl. apply Nat.eqb_neq. lia. }
  destruct (random_below coin (5 # 100)); simpl.
  - rewrite Hcs, Hst, Htot, Hpid, He. split; [exact Hent|]. split; [eauto|].
    split; [exact Hus|]. split; [reflexivity|]. discriminate.
  - split; [exact Hent|]. split; [eauto|]. split; [exact Hus|]. split; [reflexivity|exact Hblock].
Qed.


(** *** Payout recipients and unreachable branches of the draw *)

Lemma random_choice_In l r w : random_choice l r = Some w -> In w l.
Proof. destruct l as [|x l]; [discriminate|]. apply nth_error_In. Qed.

Lemma weighted_In ps w :
  In w (weighted_participants ps) -> exists p, In p ps /\ pt_discord_id p = w.
Proof.
  unfold weighted_participants. intros H. apply in_flat_map in H as (p & Hp & Hr).
  apply repeat_spec in Hr. eauto.
Qed.

Lemma active_participant_entry db g p :
  In p (get_active_pot_participants db g) ->
  exists pot, get_current_pot db g = Some pot /\
    exists e, In e (pot_entries db) /\ confirmed_of_pot (p_pot_id pot) e = true
              /\ discord_id e = pt_discord_id p.
Proof.
  unfold get_active_pot_participants. destruct (get_current_pot db g) as [pot|]; [|intros []].
  intros H. exists pot. split; [reflexivity|].
  apply in_map_iff in H as (q & <- & Hq). simpl.
  set (rows := filter (confirmed_of_pot (p_pot_id pot)) (pot_entries db)) in *.
  destruct (group_by_discord_id_spec rows) as (_ & Hcnt & _).
  destruct (Hcnt q Hq) as [Hc _].
  pose proof (proj1 (Forall_forall _ _) (group_by_counts_pos rows) q Hq) as Hpos. simpl in Hpos.
  destruct (filter (by_discord_id (pa_discord_id q)) rows) as [|e l] eqn:F;
    [simpl in Hc; lia|].
  assert (He : In e (filter (by_discord_id (pa_discord_id q)) rows)) by (rewrite F; now left).
  apply filter_In in He as [He Hd]. unfold rows in He. apply filter_In in He as [He Hc'].
  exists e. split; [exact He|]. split; [exact Hc'|]. unfold by_discord_id in Hd.
  now apply String.eqb_eq.
Qed.

Lemma participant_count_active db g st :
  get_pot_status db g = Some st ->
  participant_count st = List.length (get_active_pot_participants db g) /\
  exists pot, get_current_pot db g = Some pot /\
    ps_total_amount st = sum_amounts (filter (confirmed_of_pot (p_pot_id pot)) (pot_entries db)).
Proof.
  unfold get_pot_status, get_active_pot_participants.
  destruct (get_current_pot db g) as [pot|]; [|discriminate].
  intros H. injection H as <-. simpl. split; [|eauto].
  rewrite length_map. apply Permutation_length, sort_by_perm.
Qed.

Lemma active_choice_some db g r :
  get_active_pot_participants db g <> [] ->
  exists w, random_choice (weighted_participants (get_active_pot_participants db g)) r = Some w.
Proof.
  intros Hne. destruct (active_participants_wf db g) as [_ Hpos].
  destruct (get_active_pot_participants db g) as [|p ps]; [congruence|].
  inversion Hpos as [|? ? Hp _]; subst.
  destruct (weighted_participants (p :: ps)) as [|x l] eqn:W.
  - unfold weighted_participants in W. simpl in W. destruct (entries p); [lia|discriminate].
  - unfold random_choice.
    destruct (nth_error (x :: l) (r mod List.length (x :: l))) as [w|] eqn:N; [now exists w|].
    apply nth_error_None in N. pose proof (Nat.mod_upper_bound r (List.length (x :: l))).
    simpl in *. lia.
Qed.

Lemma weighted_winner_entry db g st w :
  get_pot_status db g = Some st ->
  In w (weighted_participants (get_active_pot_participants db g)) ->
  exists pot, get_current_pot db g = Some pot /\
    (exists e, In e (pot_entries db) /\ confirmed_of_pot (p_pot_id pot) e = true /\ discord_id e = w) /\
    ps_total_amount st = sum_amounts (filter (confirmed_of_pot (p_pot_id pot)) (pot_entries db)).
Proof.
  intros Hst Hw. destruct (participant_count_active db g st Hst) as [_ (pot & Hpot & Htot)].
  apply weighted_In in Hw as (p & Hp & <-).
  destruct (active_participant_entry db g p Hp) as (pot' & Hpot' & He).
  rewrite Hpot in Hpot'. injection Hpot' as <-. eauto.
Qed.

Lemma draw_guild_cases coin pick send now db g :
  draw_guild coin pick send now db g = Some (db, []) \/
  exists st w, get_pot_status db g = Some st /\
    In w (weighted_participants (get_active_pot_participants db g)) /\
    draw_guild coin pick send now db g =
      Some (if send w (ps_total_amount st)
            then (win_pot db now g w (ps_total_amount st),
                  [SendFunds w (ps_total_amount st);
                   Announce g (DailyWinnerAnn w (ps_total_amount st))])
            else (db, [SendFunds w (ps_total_amount st)])).
Proof.
  unfold draw_guild. destruct (get_pot_status db g) as [st|] eqn:Hst; [|now left].
  pose proof (participant_count_active db g st Hst) as [Hc _].
  destruct (Nat.eqb_spec (participant_count st) 0) as [|Hn]; [now left|].
  destruct (random_below (coin g) (4 # 10)); [|now left].
  pose proof (active_choice_some db g (pick g)) as Hch.
  destruct (get_active_pot_participants db g) as [|p ps]; [simpl in Hc; lia|].
  destruct (random_choice (weighted_participants (p :: ps)) (pick g)) as [w|] eqn:Ec.
  - right. exists st, w. split; [reflexivity|]. split; [exact (random_choice_In _ _ _ Ec)|].
    unfold send_then_win_pot. destruct (send w (ps_total_amount st)); reflexivity.
  - exfalso. destruct Hch as [w Hw]; [discriminate|congruence].
Qed.

Lemma force_end_pot_cases db now pick send g :
  force_end_pot db now pick send g = (db, [Respond ReplyNoActivePot]) \/
  force_end_pot db now pick send g = (db, [Respond ReplyNoParticipants]) \/
  exists st w, get_pot_status db g = Some st /\
    In w (weighted_participants (get_active_pot_participants db g)) /\
    force_end_pot db now pick send g =
      (if send w (ps_total_amount st)
       then (win_pot db now g w (ps_total_amount st),
             [SendFunds w (ps_total_amount st); Announce g (ForceEndAnn w (ps_total_amount st));
              Respond (ReplyPotEnded w (ps_total_amount st))])
       else (db, [SendFunds w (ps_total_amount st); Respond (ReplySendFailed w)])).
Proof.
  unfold force_end_pot. destruct (get_pot_status db g) as [st|] eqn:Hst; [|now left].
  pose proof (participant_count_active db g st Hst) as [Hc _].
  destruct (Nat.eqb_spec (participant_count st) 0) as [|Hn]; [now right; left|].
  right. right.
  pose proof (active_choice_some db g pick) as Hch.
  destruct (get_active_pot_participants db g) as [|p ps]; [simpl in Hc; lia|].
  destruct (random_choice (weighted_participants (p :: ps)) pick) as [w|] eqn:Ec.
  - exists st, w. split; [reflexivity|]. split; [exact (random_choice_In _ _ _ Ec)|].
    unfold send_then_win_pot. destruct (send w (ps_total_amount st)); reflexivity.
  - exfalso. destruct Hch as [w Hw]; [discriminate|congruence].
Qed.

Lemma draw_loop_events (Q : event -> Prop) coin pick send now gs db log :
  (forall x, In x log -> Q x) ->
  (forall db g db' ev, draw_guild coin pick send now db g = Some (db', ev) ->
     forall x, In x ev -> Q x) ->
  forall x, In x (snd (draw_loop coin pick send now gs db log)) -> Q x.
Proof.
  intros Hlog Hg. revert db log Hlog.
  induction gs as [|g gs IH]; intros db log Hlog; simpl; [exact Hlog|].
  destruct (draw_guild coin pick send now db g) as [[db' ev]|] eqn:E; [|exact Hlog].
  apply IH. intros x Hx. apply in_app_or in Hx as [Hx|Hx]; [now apply Hlog|eapply Hg; eauto].
Qed.

(** X11: every transfer the daily draw or [/force-end-pot] starts goes to
    a user holding a confirmed entry in the guild's current pot, for the
    sum of the pot's confirmed amounts; and the store afterwards is the
    one [win_pot] gives for that winner and amount when the transfer
    succeeds, and is unchanged when it fails. *)
Theorem payout_recipient :
  (forall coin pick send now db g db' ev w amt,
     draw_guild coin pick send now db g = Some (db', ev) -> In (SendFunds w amt) ev ->
     (exists pot, get_current_pot db g = Some pot /\
        (exists e, In e (pot_entries db) /\ confirmed_of_pot (p_pot_id pot) e = true
                   /\ discord_id e = w) /\
        amt = sum_amounts (filter (confirmed_of_pot (p_pot_id pot)) (pot_entries db))) /\
     db' = (if send w amt then win_pot db now g w amt else db)) /\
  (forall db now pick send g w amt,
     In (SendFunds w amt) (snd (force_end_pot db now pick send g)) ->
     (exists pot, get_current_pot db g = Some pot /\
        (exists e, In e (pot_entries db) /\ confirmed_of_pot (p_pot_id pot) e = true
                   /\ discord_id e = w) /\
        amt = sum_amounts (filter (confirmed_of_pot (p_pot_id pot)) (pot_entries db))) /\
     fst (force_end_pot db now pick send g) = (if send w amt then win_pot db now g w amt else db)).
Proof.
  split.
  - intros coin pick send now db g db' ev w amt H Hin.
    destruct (draw_guild_cases coin pick send now db g) as [E|(st & w' & Hst & Hw & E)];
      rewrite E in H; [injection H as <- <-; destruct Hin|].
    destruct (weighted_winner_entry db g st w' Hst Hw) as (pot & Hpot & He & Htot).
    destruct (send w' (ps_total_amount st)) eqn:Es; injection H as <- <-; simpl in Hin;
      (destruct Hin as [Hx|Hin]; [|exfalso; clear -Hin; intuition discriminate]);
      injection Hx as <- <-;
      (split; [exists pot; rewrite <- Htot; auto|]); rewrite Es; reflexivity.
  - intros db now pick send g w amt Hin.
    destruct (force_end_pot_cases db now pick send g) as [E|[E|(st & w' & Hst & Hw & E)]];
      rewrite E in Hin |- *; simpl in Hin;
      [destruct Hin as [Hx|[]]; discriminate|destruct Hin as [Hx|[]]; discriminate|].
    assert (Hx : w = w' /\ amt = ps_total_amount st).
    { destruct (send w' (ps_total_amount st)); simpl in Hin;
        (destruct Hin as [Hx|Hin]; [|exfalso; clear -Hin; intuition discriminate]);
        injection Hx as <- <-; auto. }
    destruct Hx as [-> ->].
    destruct (weighted_winner_entry db g st w' Hst Hw) as (pot & Hpot & He & Htot).
    split; [exists pot; rewrite <- Htot; auto|].
    destruct (send w' (ps_total_amount st)); reflexivity.
Qed.

(** X12: the participant count of [get_pot_status] is the length of
    [get_active_pot_participants], so branches guarded by both are dead:
    the draw of a guild never raises (its [random.choice] always has a
    non-empty sequence), the daily draw never posts the "pot continues"
    announcement, and [/force-end-pot] never replies "no confirmed
    participants" nor "error". *)
Theorem draw_dead_branches :
  (forall db g st, get_pot_status db g = Some st ->
     participant_count st = List.length (get_active_pot_participants db g)) /\
  (forall coin pick send now db g, draw_guild coin pick send now db g <> None) /\
  (forall coin pick send now db g a,
     ~ In (Announce g (PotContinuesAnn a)) (snd (daily_pot_draw coin pick send now db))) /\
  (forall db now pick send g,
     ~ In (Respond ReplyNoConfirmed) (snd (force_end_pot db now pick send g)) /\
     ~ In (Respond ReplyError) (snd (force_end_pot db now pick send g))).
Proof.
  split; [intros db g st H; now apply participant_count_active|].
  split; [|split].
  - intros coin pick send now db g.
    destruct (draw_guild_cases coin pick send now db g) as [E|(st & w & _ & _ & E)];
      rewrite E; discriminate.
  - intros coin pick send now db g a Hin. unfold daily_pot_draw in Hin.
    refine (draw_loop_events (fun x => x <> Announce g (PotContinuesAnn a)) coin pick send now
              _ db [] _ _ _ Hin eq_refl); [intros _ []|].
    intros db0 g0 db' ev H x Hx.
    destruct (draw_guild_cases coin pick send now db0 g0) as [E|(st & w & _ & _ & E)];
      rewrite E in H; [injection H as <- <-; destruct Hx|].
    destruct (send w (ps_total_amount st)); injection H as <- <-; simpl in Hx;
      intuition (subst; discriminate).
  - intros db now pick send g.
    destruct (force_end_pot_cases db now pick send g) as [E|[E|(st & w & _ & _ & E)]];
      rewrite E; [ | | destruct (send w (ps_total_amount st))]; simpl;
      split; intros H; repeat (destruct H as [H|H]; [discriminate H|]); exact H.
Qed.

(** *** The status command *)

Lemma pwa_before_trans p q r :
  pwa_before p q = true -> pwa_before q r = true -> pwa_before p r = true.
Proof.
  unfold pwa_before. rewrite !orb_true_iff, !andb_true_iff, !Nat.ltb_lt, !Nat.eqb_eq, !Z.leb_le.
  lia.
Qed.

Lemma StronglySorted_app_rel {A} (R : A -> A -> Prop) l1 l2 x y :
  StronglySorted R (l1 ++ l2) -> In x l1 -> In y l2 -> R x y.
Proof.
  induction l1 as [|a l1 IH]; simpl; intros Hs Hx Hy; [destruct Hx|].
  inversion Hs as [|? ? Hs' Hall]; subst. destruct Hx as [<-|Hx].
  - eapply Forall_forall; [exact Hall|]. apply in_or_app. now right.
  - now apply IH.
Qed.

Lemma next_draw_spec now : now < next_draw now <= now + day /\ next_draw now mod day = 0.
Proof.
  unfold next_draw, day.
  pose proof (Z.mod_pos_bound now 86400 ltac:(lia)) as Hb.
  pose proof (Z.div_mod now 86400 ltac:(lia)) as Hd.
  split; [lia|].
  replace (now - now mod 86400 + 86400) with ((now / 86400 + 1) * 86400) by lia.
  apply Z.mod_mul. lia.
Qed.

Lemma In_firstn_In {A} n (l : list A) x : In x (firstn n l) -> In x l.
Proof. intros H. rewrite <- (firstn_skipn n l). apply in_or_app. now left. Qed.

(** X13: [/pot-status] says there is no active pot exactly when the guild
    has no current pot; otherwise its embed shows the pot's id and
    confirmed total, the number of active participants, a next draw time
    that is the first midnight (UTC) strictly after now, and a "Top
    Participants" field that is absent exactly when nobody has a confirmed
    entry; the field lists [min 10 n] of the [n] participants with their
    entry counts, and nobody left out has more entries than anyone
    listed. *)
Theorem pot_status_invoke_spec (db : DB) (now : Z) (g : string) :
  (pot_status_invoke db now g = StatusNoActivePot <-> get_current_pot db g = None) /\
  (forall e, pot_status_invoke db now g = StatusEmbedReply e ->
     (exists pot, get_current_pot db g = Some pot /\ em_pot_id e = p_pot_id pot /\
        em_total e = sum_amounts (filter (confirmed_of_pot (p_pot_id pot)) (pot_entries db))) /\
     em_participants e = List.length (get_active_pot_participants db g) /\
     (now < em_next_draw e <= now + day /\ em_next_draw e mod day = 0) /\
     (em_top e = None <-> get_active_pot_participants db g = []) /\
     (forall top, em_top e = Some top ->
        List.length top = Nat.min 10 (List.length (get_active_pot_participants db g)) /\
        (forall d n, In (d, n) top -> In (mkParticipant d n) (get_active_pot_participants db g)) /\
        (forall d n p, In (d, n) top -> In p (get_active_pot_participants db g) ->
           ~ In (pt_discord_id p) (map fst top) -> (entries p <= n)%nat))).
Proof.
  split.
  - unfold pot_status_invoke, get_pot_status.
    destruct (get_current_pot db g); simpl; split; intros H; try discriminate H; reflexivity.
  - intros e H. unfold pot_status_invoke, get_pot_status in H.
    unfold get_active_pot_participants.
    destruct (get_current_pot db g) as [pot|] eqn:Hpot; [|discriminate].
    cbv zeta in H.
    remember (group_by_discord_id (filter (confirmed_of_pot (p_pot_id pot)) (pot_entries db)))
      as grp eqn:Eg.
    remember (sort_by pwa_before grp) as srt eqn:Es.
    assert (Hperm : Permutation srt grp) by (subst srt; apply sort_by_perm).
    assert (Hss : StronglySorted (fun p q => pwa_before p q = true) srt).
    { subst srt. apply Sorted_StronglySorted.
      - intros x y z. apply pwa_before_trans.
      - apply sort_by_sorted, pwa_before_total. }
    clear Es. cbn [participants ps_total_amount participant_count ps_pot_id] in H.
    set (mk := fun p => mkParticipant (pa_discord_id p) (entry_count p)).
    assert (Hlen : List.length srt = List.length (map mk grp))
      by (rewrite length_map; now apply Permutation_length).
    apply (f_equal (fun r => match r with StatusEmbedReply x => x | _ => e end)) in H.
    cbv beta iota in H. subst e. cbn [em_top em_pot_id em_total em_participants em_next_draw].
    destruct srt as [|x l]; cbv beta iota.
    + split; [eauto|]. split; [exact Hlen|]. split; [apply next_draw_spec|].
      apply Permutation_nil in Hperm. rewrite Hperm.
      split; [split; reflexivity|]. discriminate.
    + split; [eauto|]. split; [exact Hlen|]. split; [apply next_draw_spec|].
      split.
      { split; [discriminate|]. intros Hm. apply map_eq_nil in Hm. rewrite Hm in Hperm.
        apply Permutation_sym, Permutation_nil in Hperm. discriminate. }
      intros top Ht. apply (f_equal (fun o => match o with Some t => t | None => top end)) in Ht.
      cbv beta iota in Ht. subst top.
      split; [|split].
      * rewrite length_map, length_firstn. now rewrite Hlen.
      * intros d n Hin. apply in_map_iff in Hin as (r & Hr & Hin). injection Hr as <- <-.
        apply (in_map mk). eapply Permutation_in; [exact Hperm|]. exact (In_firstn_In _ _ _ Hin).
      * intros d n p Hin Hp Hnot. apply in_map_iff in Hin as (r & Hr & Hin). injection Hr as <- <-.
        apply in_map_iff in Hp as (q & <- & Hq). simpl.
        assert (Hq' : In q (x :: l))
          by (eapply Permutation_in; [apply Permutation_sym, Hperm|exact Hq]).
        assert (Hqs : In q (skipn 10 (x :: l))).
        { rewrite <- (firstn_skipn 10 (x :: l)) in Hq'. apply in_app_or in Hq' as [Hq'|Hq'];
            [|exact Hq'].
          exfalso. apply Hnot. apply in_map_iff.
          exists (pa_discord_id q, entry_count q). split; [reflexivity|].
          exact (in_map (fun p => (pa_discord_id p, entry_count p)) _ _ Hq'). }
        rewrite <- (firstn_skipn 10 (x :: l)) in Hss.
        pose proof (StronglySorted_app_rel _ _ _ r q Hss Hin Hqs) as Hb.
        unfold pwa_before in Hb. rewrite orb_true_iff, andb_true_iff, Nat.ltb_lt, Nat.eqb_eq in Hb.
        lia.
Qed.

(** *** Transfer of the winnings *)

(** X14: [send_winnings_to_user] returns [True] exactly when the users
    lookup yields a first user with an id and [stackcoin_send_stk] for that
    id and the given amount returns a successful response; it always
    starts with the users lookup for the given Discord id, and makes at
    most one transfer, of exactly the given amount with the label "Lucky
    Pot Winnings", always to the id of the first user returned. *)
Theorem send_winnings_to_user_spec (lookup : users_response)
    (send_stk : Z -> Z -> send_stk_response) (w : string) (amt : Z) :
  (fst (send_winnings_to_user lookup send_stk w amt) = true <->
   exists u us uid, lookup = UsersOk (u :: us) /\ su_id u = Some uid /\
                    send_stk uid amt = SendResponse true) /\
  (snd (send_winnings_to_user lookup send_stk w amt) = [CallUsers w] \/
   exists u us uid, lookup = UsersOk (u :: us) /\ su_id u = Some uid /\
     snd (send_winnings_to_user lookup send_stk w amt)
     = [CallUsers w; CallSendStk uid amt "Lucky Pot Winnings"%string]).
Proof.
  unfold send_winnings_to_user.
  destruct lookup as [|[|u us]].
  - split; [split; [discriminate|intros (u & us & uid & H & _); discriminate H]|now left].
  - split; [split; [discriminate|intros (u & us & uid & H & _); discriminate H]|now left].
  - destruct (su_id u) as [uid|] eqn:Hid.
    + split.
      * split.
        -- intros H. exists u, us, uid. split; [reflexivity|]. split; [exact Hid|].
           destruct (send_stk uid amt) as [| |[|]]; simpl in H; congruence.
        -- intros (u' & us' & uid' & Hl & Hid' & Hs). injection Hl as <- <-.
           rewrite Hid in Hid'. injection Hid' as <-. now rewrite Hs.
      * right. exists u, us, uid. split; [reflexivity|]. split; [exact Hid|].
        destruct (send_stk uid amt) as [| |[|]]; reflexivity.
    + split; [split; [discriminate|]|now left].
      intros (u' & us' & uid' & Hl & Hid' & _). injection Hl as <- <-. congruence.
Qed.


(** *** The reconciliation tick as a sequence of updates *)

Lemma confirm_step_unconfirmed_pair resp send now db log x :
  status (fst x) = Unconfirmed ->
  confirm_step resp send now (db, log) x =
  (if request_accepted resp (fst x) then confirm_entry db now (entry_id (fst x)) else db, log).
Proof.
  destruct x as [e g]. simpl. intros Hs.
  unfold confirm_step, request_accepted. rewrite Hs. simpl.
  destruct (resp e) as [reqs|]; [|reflexivity].
  destruct (existsb _ reqs); reflexivity.
Qed.

Lemma fold_confirm_eq resp send tconf l db log :
  (forall x, In x l -> status (fst x) = Unconfirmed) ->
  fold_left (fun st x => confirm_step resp send (tconf (fst x)) st x) l (db, log) =
  (fold_left (fun d x => if request_accepted resp (fst x)
                         then confirm_entry d (tconf (fst x)) (entry_id (fst x)) else d) l db, log).
Proof.
  revert db. induction l as [|x l IH]; intros db H; cbn [fold_left]; [reflexivity|].
  rewrite confirm_step_unconfirmed_pair by (apply H; now left).
  apply IH. intros y Hy. apply H. now right.
Qed.

Lemma fold_expire_eq deny_ok l db log :
  fold_left (expire_step deny_ok) l (db, log) =
  (fold_left (fun d x => if deny_ok (fst x) then deny_entry d (entry_id (fst x)) else d) l db,
   log ++ map (fun x => DenyRequest (stackcoin_request_id (fst x)))
            (filter (fun x => deny_ok (fst x)) l)).
Proof.
  revert db log. induction l as [|x l IH]; intros db log; simpl; [now rewrite app_nil_r|].
  destruct (deny_ok (fst x)); rewrite IH; simpl; [now rewrite <- app_assoc|reflexivity].
Qed.

(** The single-clock [process_stackcoin_requests] is the tick whose three
    clock readings coincide. *)
Lemma process_stackcoin_requests_one_clock resp send deny_ok now db :
  fst (process_stackcoin_requests_timed resp send deny_ok now (fun _ => now) now db) =
  process_stackcoin_requests resp send deny_ok now db.
Proof.
  unfold process_stackcoin_requests_timed, process_stackcoin_requests. cbv zeta.
  change (fun st x => confirm_step resp send ((fun _ : PotEntry => now) (fst x)) st x)
    with (confirm_step resp send now).
  destruct (fold_left (confirm_step resp send now) (get_unconfirmed_entries db now) (db, []))
    as [db1 log1].
  destruct (fold_left (expire_step deny_ok) (get_expired_entries db1 now) (db1, log1)).
  reflexivity.
Qed.

(** X15: a reconciliation tick never pays out and never announces,
    whatever the sends would return and whatever its clocks read.  Its
    store effect is the sequence of [confirm_entry] (at [tconf]) for the
    entries of the unconfirmed query whose request was accepted, followed
    by the sequence of [deny_entry] for the entries of the expired query
    (run at [t1] on the store after the confirmations) whose deny call
    returns.  Its event log holds exactly those denials, in query order.
    Its calls are one [stackcoin_requests] per entry of the unconfirmed
    query, in query order, followed by one deny attempt per entry of the
    expired query, in query order, including the attempts that raise. *)
Theorem tick_only_confirms_and_denies resp send deny_ok t0 tconf t1 db :
  process_stackcoin_requests_timed resp send deny_ok t0 tconf t1 db =
  (fold_left (fun d x => if deny_ok (fst x) then deny_entry d (entry_id (fst x)) else d)
     (get_expired_entries
        (fold_left (fun d x => if request_accepted resp (fst x)
                               then confirm_entry d (tconf (fst x)) (entry_id (fst x)) else d)
           (get_unconfirmed_entries db t0) db) t1)
     (fold_left (fun d x => if request_accepted resp (fst x)
                            then confirm_entry d (tconf (fst x)) (entry_id (fst x)) else d)
        (get_unconfirmed_entries db t0) db),
   map (fun x => DenyRequest (stackcoin_request_id (fst x)))
     (filter (fun x => deny_ok (fst x))
        (get_expired_entries
           (fold_left (fun d x => if request_accepted resp (fst x)
                                  then confirm_entry d (tconf (fst x)) (entry_id (fst x)) else d)
              (get_unconfirmed_entries db t0) db) t1)),
   map (fun x => CallRequests (entry_id (fst x))) (get_unconfirmed_entries db t0) ++
   map (fun x => CallDeny (stackcoin_request_id (fst x)) (deny_ok (fst x)))
     (get_expired_entries
        (fold_left (fun d x => if request_accepted resp (fst x)
                               then confirm_entry d (tconf (fst x)) (entry_id (fst x)) else d)
           (get_unconfirmed_entries db t0) db) t1)).
Proof.
  unfold process_stackcoin_requests_timed. cbv zeta.
  rewrite fold_confirm_eq
    by (intros x Hx; now apply get_unconfirmed_entries_iff in Hx as (_ & H & _)).
  rewrite fold_expire_eq. reflexivity.
Qed.

(** * Witnesses *)

Local Open Scope string_scope.

Lemma can_user_enter_pot_cooldown_witness :
  (forall e, In e (pot_entries ex_status_db) -> pot_id e <> 2%nat) /\
  can_user_enter_pot ex_status_db 0 "A" "g" 2 = true.
Proof.
  assert (H : forall e, In e (pot_entries ex_status_db) -> pot_id e <> 2%nat)
    by (simpl; intros e [<-|[<-|[<-|[]]]]; discriminate).
  split; [exact H|].
  exact (proj2 (proj2 (can_user_enter_pot_cooldown ex_status_db 0 "A" "g" 2)) H).
Defined.

Lemma instant_win_entry_no_cooldown_witness :
  can_user_enter_pot ex_pot_db 100 "A" "g" 1 = true /\
  can_user_enter_pot (fst (create_pot_entry ex_pot_db 100 1 "A" "g" "7" true)) 100 "A" "g" 1
  = true.
Proof.
  split; [vm_compute; reflexivity|].
  apply instant_win_entry_no_cooldown. vm_compute. reflexivity.
Defined.

Lemma win_pot_without_current_pot_witness :
  (forall p, In p (pots ex_user_db) -> is_current_pot "g" p = false) /\
  users (win_pot ex_user_db 50 "g" "A" 10) = map (credit_winner "g" "A" 10) (users ex_user_db).
Proof.
  assert (H : forall p, In p (pots ex_user_db) -> is_current_pot "g" p = false)
    by (simpl; intros p []).
  split; [exact H|].
  exact (proj2 (proj2 (win_pot_without_current_pot ex_user_db 50 "g" "A" 10 H))).
Defined.

Lemma get_pot_status_confirmed_only_witness :
  exists pot, get_current_pot ex_status_db "g" = Some pot /\ ps_pot_id
    (mkPotStatus 1 10 1 [mkPWA "A" 2 10] 0) = p_pot_id pot.
Proof.
  destruct (proj1 get_pot_status_confirmed_only ex_status_db "g"
              (mkPotStatus 1 10 1 [mkPWA "A" 2 10] 0) ltac:(vm_compute; reflexivity))
    as (pot & Hp & Hid & _).
  exists pot. split; [exact Hp|exact Hid].
Defined.

Lemma payout_only_after_successful_send_witness :
  fst (daily_pot_draw (fun _ => 1 # 5) (fun _ => 0%nat) (fun _ _ => false) 200 ex_status_db)
  = ex_status_db.
Proof.
  exact (proj1 (proj2 (proj2 payout_only_after_successful_send)
                  (fun _ _ => false) (fun _ _ => eq_refl))
           (fun _ => 1 # 5) (fun _ => 0%nat) 200 ex_status_db).
Defined.

Lemma weighted_winner_selection_witness :
  count_occ String.string_dec
    (weighted_participants [mkParticipant "A" 3; mkParticipant "B" 1]) "A" = 3%nat /\
  List.length (filter (fun r => match random_choice
                                  (weighted_participants [mkParticipant "A" 3; mkParticipant "B" 1]) r with
                                | Some x => String.eqb x "A"
                                | None => false
                                end) (seq 0 4)) = 3%nat.
Proof.
  apply (proj1 weighted_winner_selection [mkParticipant "A" 3; mkParticipant "B" 1]
           (mkParticipant "A" 3)).
  - simpl. constructor; [simpl; intros [H|[]]; discriminate|constructor; [intros []|constructor]].
  - simpl. now left.
Defined.

Lemma enter_pot_rejections_witness :
  can_user_enter_pot (fst (admission_pot ex_pending_db 200 "g" "A")) 200 "A" "g"
    (snd (admission_pot ex_pending_db 200 "g" "A")) = false /\
  enter_pot ex_pending_db 200 "g" "A" (UsersOk [mkStkUser (Some 1) "a"]) (Some "8") (1 # 2)
  = (fst (admission_pot ex_pending_db 200 "g" "A"), [Respond ReplyCooldown]).
Proof.
  assert (H : can_user_enter_pot (fst (admission_pot ex_pending_db 200 "g" "A")) 200 "A" "g"
                (snd (admission_pot ex_pending_db 200 "g" "A")) = false)
    by (vm_compute; reflexivity).
  split; [exact H|].
  exact (proj1 (proj1 (enter_pot_rejections ex_pending_db 200 "g" "A" (1 # 2))
                  (mkStkUser (Some 1) "a") [] (Some "8") H)).
Defined.

Lemma ex_run_steps :
  clos_refl_trans DB prog_step empty_db ex_run1 /\
  clos_refl_trans DB prog_step ex_run1 ex_run4.
Proof.
  split; [unfold ex_run1; apply rt_step, step_enter|].
  apply rt_trans with ex_run3; [apply rt_trans with ex_run2|]; apply rt_step.
  - unfold ex_run2. apply step_reconcile.
  - unfold ex_run3. apply step_force_end.
  - unfold ex_run4. apply step_enter.
Qed.

Lemma entry_status_only_moves_forward_witness :
  map status (pot_entries ex_run1) = [Unconfirmed] /\
  map status (pot_entries ex_run4) = [Confirmed; Unconfirmed] /\
  entries_forward (pot_entries ex_run1) (pot_entries ex_run4).
Proof.
  split; [vm_compute; reflexivity|]. split; [vm_compute; reflexivity|].
  exact (entry_status_only_moves_forward ex_run1 ex_run4 (proj1 ex_run_steps)
           (proj2 ex_run_steps)).
Defined.

Lemma tick_entry_outcome_witness :
  wf_db ex_pending_db /\
  map (fun x => entry_id (fst x)) (get_unconfirmed_entries ex_pending_db 3000) = [1%nat] /\
  rows_with_id 1
    (pot_entries (fst (fst (process_stackcoin_requests_timed (fun _ => None) (fun _ _ => true)
                              (fun _ => true) 3000 (fun _ => 3000) 3800 ex_pending_db))))
  = [mkEntry 1 1 "A" "g" 5 Denied "7" 100 None].
Proof.
  assert (Hwf : wf_db ex_pending_db)
    by (split; vm_compute; [constructor; [intros []|constructor]|constructor; [lia|constructor]]).
  split; [exact Hwf|]. split; [vm_compute; reflexivity|].
  etransitivity;
    [exact (tick_entry_outcome (fun _ => None) (fun _ _ => true) (fun _ => true) 3000
              (fun _ => 3000) 3800 ex_pending_db (mkEntry 1 1 "A" "g" 5 Unconfirmed "7" 100 None)
              Hwf ltac:(vm_compute; left; reflexivity) eq_refl)|].
  vm_compute. reflexivity.
Defined.

Lemma at_most_one_current_pot_witness :
  List.length (pots ex_run4) = 2%nat /\
  (current_pot_count ex_run4 "g" <= 1)%nat /\
  filter (is_current_pot "g") (pots ex_run4) =
  match get_current_pot ex_run4 "g" with Some p => [p] | None => [] end.
Proof.
  split; [vm_compute; reflexivity|].
  exact (at_most_one_current_pot ex_run4
           (rt_trans _ _ _ _ _ (proj1 ex_run_steps) (proj2 ex_run_steps)) "g").
Defined.

Lemma user_keys_unique_witness :
  map total_wins (users ex_run4) = [1] /\
  NoDup (user_keys ex_run4).
Proof.
  split; [vm_compute; reflexivity|].
  exact (user_keys_unique ex_run4 (rt_trans _ _ _ _ _ (proj1 ex_run_steps) (proj2 ex_run_steps))).
Defined.

Lemma create_new_pot_current_witness :
  get_current_pot ex_user_db "g" = None /\
  get_current_pot (fst (create_new_pot ex_user_db 5 "g")) "g"
  = Some (mkPot 1 "g" None 0 5 None true).
Proof.
  assert (H : get_current_pot ex_user_db "g" = None) by (vm_compute; reflexivity).
  split; [exact H|].
  exact (proj1 (proj2 (create_new_pot_current ex_user_db 5 "g" H))).
Defined.

Lemma create_pot_entry_spec_witness :
  wf_db ex_pot_db /\
  get_pot_status (fst (create_pot_entry ex_status_db 30 1 "B" "g" "9" false)) "g"
  = get_pot_status ex_status_db "g".
Proof.
  assert (Hwf : wf_db ex_pot_db) by (split; vm_compute; constructor).
  assert (Hwf' : wf_db ex_status_db)
    by (split; vm_compute;
        [repeat constructor; simpl; intuition discriminate|repeat constructor; lia]).
  split; [exact Hwf|].
  exact (proj2 (proj2 (create_pot_entry_spec ex_status_db 30 1 "B" "g" "9" false Hwf')) "g").
Defined.

Lemma enter_pot_success_witness :
  snd (enter_pot ex_pot_db 100 "g" "A" (UsersOk [mkStkUser (Some 1) "a"]) (Some "7") (1 # 2))
  = [CreateRequest 1 5; Respond ReplyEntered].
Proof.
  assert (Hwf : wf_db ex_pot_db) by (split; vm_compute; constructor).
  rewrite (proj1 (proj2 (proj2 (proj2
             (enter_pot_success ex_pot_db 100 "g" "A" (mkStkUser (Some 1) "a") [] 1 "7" (1 # 2)
                Hwf eq_refl ltac:(vm_compute; reflexivity)))))).
  vm_compute. reflexivity.
Defined.

Local Close Scope string_scope.
